(** * A verification model of the file-system cache engine (src/file-cache.ts)

    The engine stores JSON documents in one directory, one file per derived
    key, and evicts them with an explicit sweep and two flush operations.
    This development embeds the engine as state-passing functions over an
    explicit world (file system, clock, the module-level counters and the
    console) and settles the properties of the design document against it.

    Platform functions the engine calls are treated as follows.
    - [createHash('sha256')...digest('hex')] is SHA-256 itself, written
      out below over 32-bit words held in [Z] and checked on the standard
      test vectors.
    - [JSON.stringify], [JSON.parse] and the regular-expression engine behind
      [String.prototype.match] are parameters of the model (section
      variables); what a theorem needs from them is an explicit hypothesis.
      A small concrete codec and a literal matcher instantiate them where a
      statement is evaluated on concrete data.
    - JavaScript numbers that are stored are integers ([Z]) held in
      doubles: what [set] computes is rounded to the nearest double and
      overflows to an infinity; the quotients the sweep computes are exact
      rationals ([Q]) with an explicit NaN.
    - A cache directory is a flat finite map from entry names to nodes,
      listed sorted by name; a new entry is created under a name that is a
      single path component within the platform's length limits. *)

From Stdlib Require Import ZArith String Ascii List QArith Lia DecimalString.
From stdpp Require Import base option gmap strings list fin_maps sorting.

Local Open Scope string_scope.
Local Open Scope Z_scope.

(** ** SHA-256 (FIPS 180-4), the digest behind [formatFileName] *)

Module SHA256.

Definition mask32 : Z := 0xffffffff.

Definition add32 (x y : Z) : Z := Z.land (x + y) mask32.

Definition rotr (n x : Z) : Z :=
  Z.lor (Z.shiftr x n) (Z.land (Z.shiftl x (32 - n)) mask32).

Definition shr (n x : Z) : Z := Z.shiftr x n.

Definition not32 (x : Z) : Z := Z.lxor x mask32.

Definition Ch (x y z : Z) : Z :=
  Z.lxor (Z.land x y) (Z.land (not32 x) z).

Definition Maj (x y z : Z) : Z :=
  Z.lxor (Z.lxor (Z.land x y) (Z.land x z)) (Z.land y z).

Definition Sigma0 (x : Z) : Z :=
  Z.lxor (Z.lxor (rotr 2 x) (rotr 13 x)) (rotr 22 x).

Definition Sigma1 (x : Z) : Z :=
  Z.lxor (Z.lxor (rotr 6 x) (rotr 11 x)) (rotr 25 x).

Definition sigma0 (x : Z) : Z :=
  Z.lxor (Z.lxor (rotr 7 x) (rotr 18 x)) (shr 3 x).

Definition sigma1 (x : Z) : Z :=
  Z.lxor (Z.lxor (rotr 17 x) (rotr 19 x)) (shr 10 x).

(** The constants are defined as the standard defines them: the first 32
    bits of the fractional parts of the cube roots (round constants) and of
    the square roots (initial hash value) of the first primes. *)

Definition is_prime (n : Z) : bool :=
  (1 <? n) &&
  forallb (fun d => negb (n mod Z.of_nat d =? 0)) (seq 2 (Z.to_nat n - 2)).

Definition first_primes (count : nat) : list Z :=
  firstn count (List.filter is_prime (map Z.of_nat (seq 2 400))).

(** The largest [r] below [2 ^ bits] with [r ^ k <= x], found bit by bit. *)
Fixpoint floor_root (k : Z) (bits : nat) (x acc : Z) : Z :=
  match bits with
  | O => acc
  | S bits' =>
      let candidate := acc + 2 ^ Z.of_nat bits' in
      if candidate ^ k <=? x
      then floor_root k bits' x candidate
      else floor_root k bits' x acc
  end.

Definition frac_root32 (k p : Z) : Z :=
  Z.land (floor_root k 40 (p * 2 ^ (32 * k)) 0) mask32.

Definition K : list Z :=
  Eval vm_compute in map (frac_root32 3) (first_primes 64).

(** The eight working variables / chaining values. *)
Record state := State {
  sa : Z; sb : Z; sc : Z; sd : Z; se : Z; sf : Z; sg : Z; sh : Z
}.

Definition state_of_list (l : list Z) : state :=
  State (nth 0 l 0) (nth 1 l 0) (nth 2 l 0) (nth 3 l 0)
        (nth 4 l 0) (nth 5 l 0) (nth 6 l 0) (nth 7 l 0).

Definition H0 : state :=
  Eval vm_compute in state_of_list (map (frac_root32 2) (first_primes 8)).

Definition bytes_of_string (s : string) : list Z :=
  map (fun c => Z.of_N (N_of_ascii c)) (list_ascii_of_string s).

(** Big-endian bytes of [x], [n] of them. *)
Fixpoint be_bytes (n : nat) (x : Z) : list Z :=
  match n with
  | O => []
  | S n' => Z.land (Z.shiftr x (8 * Z.of_nat n')) 0xff :: be_bytes n' x
  end.

Definition pad (msg : list Z) : list Z :=
  let len := Z.of_nat (length msg) in
  let zeros := Z.to_nat ((55 - len) mod 64) in
  msg ++ 0x80 :: repeat 0 zeros ++ be_bytes 8 (8 * len).

(** Sixteen big-endian words of one 64-byte block. *)
Fixpoint words (n : nat) (bs : list Z) : list Z :=
  match n, bs with
  | S n', b0 :: b1 :: b2 :: b3 :: rest =>
      Z.lor (Z.lor (Z.lor (Z.shiftl b0 24) (Z.shiftl b1 16)) (Z.shiftl b2 8)) b3
      :: words n' rest
  | _, _ => []
  end.

(** The message schedule, newest word first while it is extended. *)
Fixpoint extend (n : nat) (rev_w : list Z) : list Z :=
  match n with
  | O => rev_w
  | S n' =>
      let w := add32 (add32 (sigma1 (nth 1 rev_w 0)) (nth 6 rev_w 0))
                     (add32 (sigma0 (nth 14 rev_w 0)) (nth 15 rev_w 0)) in
      extend n' (w :: rev_w)
  end.

Definition schedule (block : list Z) : list Z :=
  rev (extend 48 (rev (words 16 block))).

Definition round (s : state) (kw : Z * Z) : state :=
  let t1 := add32 (add32 (add32 (sh s) (Sigma1 (se s)))
                         (add32 (Ch (se s) (sf s) (sg s)) (fst kw))) (snd kw) in
  let t2 := add32 (Sigma0 (sa s)) (Maj (sa s) (sb s) (sc s)) in
  State (add32 t1 t2) (sa s) (sb s) (sc s) (add32 (sd s) t1) (se s) (sf s) (sg s).

Definition compress (h : state) (block : list Z) : state :=
  let r := fold_left round (combine K (schedule block)) h in
  State (add32 (sa h) (sa r)) (add32 (sb h) (sb r))
        (add32 (sc h) (sc r)) (add32 (sd h) (sd r))
        (add32 (se h) (se r)) (add32 (sf h) (sf r))
        (add32 (sg h) (sg r)) (add32 (sh h) (sh r)).

Fixpoint blocks (n : nat) (h : state) (bs : list Z) : state :=
  match n with
  | O => h
  | S n' => blocks n' (compress h (firstn 64 bs)) (skipn 64 bs)
  end.

Definition digest (msg : list Z) : state :=
  let p := pad msg in
  blocks (Nat.div (length p) 64) H0 p.

Definition hex_digit (d : Z) : ascii :=
  if d <? 10 then ascii_of_N (Z.to_N (48 + d)) else ascii_of_N (Z.to_N (87 + d)).

Definition nibble (x k : Z) : ascii := hex_digit (Z.land (Z.shiftr x k) 0xf).

Definition hex32 (x : Z) : string :=
  String (nibble x 28) (String (nibble x 24) (String (nibble x 20)
  (String (nibble x 16) (String (nibble x 12) (String (nibble x 8)
  (String (nibble x 4) (String (nibble x 0) EmptyString))))))).

Definition hex (s : state) : string :=
  hex32 (sa s) +:+ hex32 (sb s) +:+ hex32 (sc s) +:+ hex32 (sd s) +:+
  hex32 (se s) +:+ hex32 (sf s) +:+ hex32 (sg s) +:+ hex32 (sh s).

End SHA256.

(** [createHash('sha256').update(s).digest('hex')] *)
Definition sha256_hex (s : string) : string :=
  SHA256.hex (SHA256.digest (SHA256.bytes_of_string s)).


(** ** JavaScript values, as far as the engine handles them *)

#[local] Set Warnings "-register-all".

(** A JSON tree.  Numbers are the integers: every number the engine itself
    stores (a TTL in milliseconds, an epoch timestamp) is one. *)
Inductive json : Type :=
  | JNull
  | JBool (b : bool)
  | JNum (n : Z)
  | JStr (s : string)
  | JArr (items : list json)
  | JObj (props : list (string * json)).

(** A value a caller can pass or a property access can yield: [undefined]
    or a JSON tree. *)
Inductive jsvalue : Type :=
  | Undefined
  | Val (j : json).

(** A computed number: the sweep divides by 1000, so these are rationals;
    [NaN] arises from converting a non-number. *)
Inductive jsnum : Type :=
  | NaN
  | Num (q : Q).

Inductive error : Type :=
  | ENOENT (path : string)          (* no such file or directory *)
  | EISDIR (path : string)          (* the path is a directory *)
  | ENOTDIR (path : string)         (* a component of the path is not a directory *)
  | EEXIST (path : string)          (* the path exists and is not a directory *)
  | ENAMETOOLONG (path : string)    (* the path or one of its components is too long *)
  | SyntaxError                     (* JSON.parse, new RegExp *)
  | TypeError                       (* property access on null *)
  | Error (message : string).       (* new Error(message) *)

(** Result of running a piece of code: a value or a thrown exception. *)
Inductive outcome (A : Type) : Type :=
  | Ok (a : A)
  | Throw (e : error).
Arguments Ok {A} a.
Arguments Throw {A} e.

(** ToBoolean *)
Definition truthy (v : jsvalue) : bool :=
  match v with
  | Undefined => false
  | Val JNull => false
  | Val (JBool b) => b
  | Val (JNum n) => negb (n =? 0)
  | Val (JStr s) => negb (String.eqb s "")
  | Val (JArr _) => true
  | Val (JObj _) => true
  end.

Fixpoint assoc (k : string) (props : list (string * json)) : jsvalue :=
  match props with
  | [] => Undefined
  | (k', v) :: rest => if String.eqb k k' then Val v else assoc k rest
  end.

(** [data.k] for one of the keys the engine reads ([payload], [ttl],
    [expiration]): reading a property of [null] throws, an object yields its
    own property, and no other JSON value carries such a property. *)
Definition getprop (data : json) (k : string) : outcome jsvalue :=
  match data with
  | JNull => Throw TypeError
  | JObj props => Ok (assoc k props)
  | _ => Ok Undefined
  end.

(** [Object(payload)]: [null] and [undefined] become a fresh empty object,
    objects and arrays are returned as they are.  A primitive is wrapped in
    a Number, String or Boolean object, which [JSON.stringify] serialises as
    the primitive itself and which nothing else observes: the wrapper is
    represented by the primitive it wraps. *)
Definition Object (payload : jsvalue) : json :=
  match payload with
  | Undefined => JObj []
  | Val JNull => JObj []
  | Val j => j
  end.

Definition num_sub (a b : jsnum) : jsnum :=
  match a, b with
  | Num x, Num y => Num (x - y)
  | _, _ => NaN
  end.

(** [a / 1000] *)
Definition num_div1000 (a : jsnum) : jsnum :=
  match a with
  | Num x => Num (x / 1000)
  | NaN => NaN
  end.

(** [Math.max(0, a)] *)
Definition Math_max0 (a : jsnum) : jsnum :=
  match a with
  | Num x => if Qle_bool x 0 then Num 0 else Num x
  | NaN => NaN
  end.

(** [v || 0] for [v : number | null] *)
Definition or_zero (v : option jsnum) : Q :=
  match v with
  | Some (Num x) => if Qeq_bool x 0 then 0%Q else x
  | Some NaN => 0%Q
  | None => 0%Q
  end.

(** *** The numbers [set] computes

    A TTL and a clock reading are integers held in IEEE-754 doubles: a
    product or a sum is the exact result rounded to the nearest double, ties
    to even, and becomes an infinity past the largest double. *)
Inductive number : Type :=
  | Int (z : Z)
  | Infinity
  | NegInfinity.

Definition MAX_SAFE_INTEGER : Z := 2 ^ 53 - 1.

Definition round_to_double (z : Z) : number :=
  let a := Z.abs z in
  let e := Z.log2 a - 52 in
  if e <=? 0 then Int z
  else
    let q := Z.shiftr a e in
    let r := Z.land a (Z.ones e) in
    let half := Z.shiftl 1 (e - 1) in
    let q' := if (half <? r) || ((r =? half) && Z.odd q) then q + 1 else q in
    let m := Z.shiftl q' e in
    if 2 ^ 1024 <=? m then (if z <? 0 then NegInfinity else Infinity)
    else Int (Z.sgn z * m).

(** [a * b] and [a + b] where [a] is finite *)
Definition number_mul (a b : Z) : number := round_to_double (a * b).

Definition number_add (a : Z) (b : number) : number :=
  match b with
  | Int z => round_to_double (a + z)
  | Infinity => Infinity
  | NegInfinity => NegInfinity
  end.

(** ToBoolean of a number that is not NaN *)
Definition number_truthy (x : number) : bool :=
  match x with
  | Int z => negb (z =? 0)
  | _ => true
  end.

(** A number as [JSON.stringify] takes it: one that is not finite is
    serialised as [null]. *)
Definition json_of_number (x : number) : json :=
  match x with
  | Int z => JNum z
  | _ => JNull
  end.

(** ** The world: file system, clock, module-level state, console *)

(** An entry of a directory: a regular file with its content, or a
    sub-directory.  The world below maps the path of a directory to its
    entries by name.  A sub-directory is an entry like any other: the
    primitives look a name up among the entries of the directory they are
    given and do not descend into a sub-directory. *)
Inductive node : Type :=
  | File (content : string)
  | Dir (size : Z).

Record Stats := { isFile : bool; size : Z }.

Definition node_stats (n : node) : Stats :=
  match n with
  | File c => {| isFile := true; size := Z.of_nat (String.length c) |}
  | Dir sz => {| isFile := false; size := sz |}
  end.

(** One element of [GLOBAL_LOGS_OVER_TIME].  The fields [mb] and
    [totalSize] of the source are formatted from [bytes] alone and are not
    repeated here. *)
Record TLogsOverTime := {
  id : Z;
  bytes : Z;
  endpointInvalidateRequestCount : Z;
  endpointDeleteRequestCount : Z;
  endpointDeleteByRegexRequestCount : Z
}.

Record World := {
  fs : gmap string (gmap string node);
  now : Z;
  GLOBAL_ENDPOINT_INVALIDATE_REQUEST_COUNT : Z;
  GLOBAL_ENDPOINT_DELETE_REQUEST_COUNT : Z;
  GLOBAL_ENDPOINT_DELETE_BY_REGEX_REQUEST_COUNT : Z;
  GLOBAL_LOGS_OVER_TIME : list TLogsOverTime;
  console : list (string * error)
}.

Definition with_fs (f : gmap string (gmap string node)) (w : World) : World :=
  {| fs := f; now := now w;
     GLOBAL_ENDPOINT_INVALIDATE_REQUEST_COUNT := GLOBAL_ENDPOINT_INVALIDATE_REQUEST_COUNT w;
     GLOBAL_ENDPOINT_DELETE_REQUEST_COUNT := GLOBAL_ENDPOINT_DELETE_REQUEST_COUNT w;
     GLOBAL_ENDPOINT_DELETE_BY_REGEX_REQUEST_COUNT := GLOBAL_ENDPOINT_DELETE_BY_REGEX_REQUEST_COUNT w;
     GLOBAL_LOGS_OVER_TIME := GLOBAL_LOGS_OVER_TIME w;
     console := console w |}.

(** The clock moves between operations. *)
Definition at_time (t : Z) (w : World) : World :=
  {| fs := fs w; now := t;
     GLOBAL_ENDPOINT_INVALIDATE_REQUEST_COUNT := GLOBAL_ENDPOINT_INVALIDATE_REQUEST_COUNT w;
     GLOBAL_ENDPOINT_DELETE_REQUEST_COUNT := GLOBAL_ENDPOINT_DELETE_REQUEST_COUNT w;
     GLOBAL_ENDPOINT_DELETE_BY_REGEX_REQUEST_COUNT := GLOBAL_ENDPOINT_DELETE_BY_REGEX_REQUEST_COUNT w;
     GLOBAL_LOGS_OVER_TIME := GLOBAL_LOGS_OVER_TIME w;
     console := console w |}.

Definition with_console (c : list (string * error)) (w : World) : World :=
  {| fs := fs w; now := now w;
     GLOBAL_ENDPOINT_INVALIDATE_REQUEST_COUNT := GLOBAL_ENDPOINT_INVALIDATE_REQUEST_COUNT w;
     GLOBAL_ENDPOINT_DELETE_REQUEST_COUNT := GLOBAL_ENDPOINT_DELETE_REQUEST_COUNT w;
     GLOBAL_ENDPOINT_DELETE_BY_REGEX_REQUEST_COUNT := GLOBAL_ENDPOINT_DELETE_BY_REGEX_REQUEST_COUNT w;
     GLOBAL_LOGS_OVER_TIME := GLOBAL_LOGS_OVER_TIME w;
     console := c |}.

(** ** Code that reads and writes a state and may throw *)

Definition M (S A : Type) : Type := S -> outcome A * S.

Definition ret {S A} (a : A) : M S A := fun s => (Ok a, s).

Definition throw {S A} (e : error) : M S A := fun s => (Throw e, s).

Definition bind {S A B} (m : M S A) (k : A -> M S B) : M S B :=
  fun s =>
    match m s with
    | (Ok a, s') => k a s'
    | (Throw e, s') => (Throw e, s')
    end.

(** [try { m } catch (err) { h err }]: the state changes made before the
    throw stay. *)
Definition try_catch {S A} (m : M S A) (h : error -> M S A) : M S A :=
  fun s =>
    match m s with
    | (Ok a, s') => (Ok a, s')
    | (Throw e, s') => h e s'
    end.

Notation "x <- m ;; k" := (bind m (fun x => k))
  (at level 100, m at next level, right associativity).
Notation "m ;;; k" := (bind m (fun _ => k))
  (at level 100, right associativity).

(** [for (const x of xs) body x]; a throw leaves the loop. *)
Fixpoint for_of {S A} (xs : list A) (body : A -> M S unit) : M S unit :=
  match xs with
  | [] => ret tt
  | x :: rest => body x ;;; for_of rest body
  end.

(** Code on the world, run where local variables are part of the state. *)
Definition lift {L A} (m : M World A) : M (L * World) A :=
  fun s =>
    match m (snd s) with
    | (r, w') => (r, (fst s, w'))
    end.

Definition locally {L} (f : L -> L) : M (L * World) unit :=
  fun s => (Ok tt, (f (fst s), snd s)).

(** *** File-system and platform primitives *)

Definition Date_now : M World Z := fun w => (Ok (now w), w).

Definition console_error (label : string) (e : error) : M World unit :=
  fun w => (Ok tt, with_console (console w ++ [(label, e)]) w).

(** **** Paths *)

Definition separator : ascii := "/"%char.
Definition NUL : ascii := zero.

(** The text between the separators of a path. *)
Fixpoint components (path current : string) : list string :=
  match path with
  | EmptyString => [current]
  | String c rest =>
      if Ascii.eqb c separator then current :: components rest ""
      else components rest (current +:+ String c EmptyString)
  end.

Definition is_absolute (path : string) : bool :=
  match path with
  | String c _ => Ascii.eqb c separator
  | EmptyString => false
  end.

(** One component seen by [path.normalize], the components kept so far
    being held innermost first. *)
Definition normalize_step (absolute : bool) (kept : list string) (c : string)
  : list string :=
  if String.eqb c "" || String.eqb c "." then kept
  else if String.eqb c ".." then
    match kept with
    | top :: below => if String.eqb top ".." then c :: kept else below
    | [] => if absolute then [] else [c]
    end
  else c :: kept.

Fixpoint join_path (parts : list string) : string :=
  match parts with
  | [] => EmptyString
  | [p] => p
  | p :: rest => p +:+ "/" +:+ join_path rest
  end.

Definition normalize (path : string) : string :=
  let absolute := is_absolute path in
  let kept := rev (foldl (normalize_step absolute) [] (components path "")) in
  if absolute then "/" +:+ join_path kept
  else if String.eqb (join_path kept) "" then "." else join_path kept.

(** [path.resolve (base, name)]: an absolute [name] stands alone, an empty
    argument is skipped, and the result is normalised.  A path that is still
    relative is relative to the working directory, which the world does not
    name. *)
Definition path_resolve (base name : string) : string :=
  if is_absolute name || String.eqb base "" then normalize name
  else normalize (base +:+ "/" +:+ name).

(** The template literal [`${base}/${name}`] of the synchronous calls. *)
Definition path_join (base name : string) : string := base +:+ "/" +:+ name.

(** **** What the platform accepts as a path (Linux) *)

Definition NAME_MAX : Z := 255.
Definition PATH_MAX : Z := 4096.

Definition byte_length (s : string) : Z := Z.of_nat (String.length s).

Fixpoint has_char (c : ascii) (s : string) : bool :=
  match s with
  | EmptyString => false
  | String c' rest => Ascii.eqb c c' || has_char c rest
  end.

(** The last component of a path and what precedes its separator; [None]
    when the path holds no separator. *)
Fixpoint split_last (path : string) : option (string * string) :=
  match path with
  | EmptyString => None
  | String c rest =>
      match split_last rest with
      | Some (parent, leaf) => Some (String c parent, leaf)
      | None => if Ascii.eqb c separator then Some (EmptyString, rest) else None
      end
  end.

(** [path.dirname] and [path.basename] of a normalised path. *)
Definition dirname (path : string) : string :=
  match split_last path with
  | Some (EmptyString, _) => "/"
  | Some (parent, _) => parent
  | None => "."
  end.

Definition basename (path : string) : string :=
  match split_last path with
  | Some (_, leaf) => leaf
  | None => path
  end.

(** The proper ancestors of a normalised path, outermost first, the root
    apart: [/a/b/c] has [/a] and [/a/b]. *)
Fixpoint ancestors_from (seen rest : string) : list string :=
  match rest with
  | EmptyString => []
  | String c rest' =>
      (if Ascii.eqb c separator && negb (String.eqb seen "") then [seen] else []) ++
      ancestors_from (seen +:+ String c EmptyString) rest'
  end.

Definition ancestors (path : string) : list string := ancestors_from "" path.

(** Why the platform refuses to create [name] among the entries of [dir],
    if it does: a NUL byte is rejected before any system call
    ([ERR_INVALID_ARG_VALUE], a TypeError); the names that resolve to the
    directory itself or to its parent denote a directory; a name with a
    separator is not an entry of [dir] but a path through a sub-directory,
    which is missing on a directory that holds cache entries only (ENOENT);
    a component longer than [NAME_MAX] or a path of [PATH_MAX] bytes or more
    is too long. *)
Definition create_error (dir name : string) : option error :=
  let path := path_resolve dir name in
  if has_char NUL path then Some TypeError
  else if String.eqb name "" || String.eqb name "." || String.eqb name ".."
  then Some (EISDIR path)
  else if has_char separator name then Some (ENOENT path)
  else if (NAME_MAX <? byte_length name) || (PATH_MAX <=? byte_length path)
  then Some (ENAMETOOLONG path)
  else None.

(** The size [stat] reports for a directory that was just created (one
    block). *)
Definition fresh_directory_size : Z := 4096.

(** [mkdir path] where [path] is known to be missing: the new directory is
    recorded, empty, and entered in its parent when the world records the
    parent.  [blocked] is the error thrown when the parent holds a regular
    file under that name. *)
Definition mkdir_missing (path : string) (blocked : string -> error) : M World unit :=
  fun w =>
    if has_char NUL path then (Throw TypeError, w)
    else if (NAME_MAX <? byte_length (basename path)) ||
            (PATH_MAX <=? byte_length path)
    then (Throw (ENAMETOOLONG path), w)
    else
      match fs w !! dirname path with
      | Some parent =>
          match parent !! basename path with
          | Some (File _) => (Throw (blocked path), w)
          | _ =>
              (Ok tt,
               with_fs (<[path := ∅]>
                          (<[dirname path :=
                               <[basename path := Dir fresh_directory_size]> parent]>
                             (fs w))) w)
          end
      | None => (Ok tt, with_fs (<[path := ∅]> (fs w)) w)
      end.

Definition mkdir (path : string) (blocked : string -> error) : M World unit :=
  fun w =>
    match fs w !! path with
    | Some _ => (Ok tt, w)
    | None => mkdir_missing path blocked w
    end.

(** [mkdir (dir, { recursive: true })]: nothing happens when the directory
    exists; otherwise every missing ancestor is created on the way down, and
    then the directory itself. *)
Definition mkdir_recursive (dir : string) : M World unit :=
  fun w =>
    match fs w !! dir with
    | Some _ => (Ok tt, w)
    | None =>
        (for_of (ancestors dir) (fun a => mkdir a ENOTDIR) ;;;
         mkdir_missing dir EEXIST) w
    end.

Definition name_le (x y : string) : Prop := String.leb x y = true.

#[local] Instance name_le_dec : RelDecision name_le.
Proof. intros x y. unfold name_le. apply _. Defined.

(** The names of a directory's entries as [readdirSync] returns them: the
    directory scan is sorted by name, byte by byte. *)
Definition scandir (d : gmap string node) : list string :=
  merge_sort name_le (map_to_list d).*1.

Definition readdirSync (dir : string) : M World (list string) :=
  fun w =>
    match fs w !! dir with
    | Some d => (Ok (scandir d), w)
    | None => (Throw (ENOENT dir), w)
    end.

Definition lookup_node (dir name : string) (w : World) : option node :=
  fs w !! dir ≫= fun d => d !! name.

Definition stat (dir name : string) : M World Stats :=
  fun w =>
    match lookup_node dir name w with
    | Some n => (Ok (node_stats n), w)
    | None => (Throw (ENOENT (path_resolve dir name)), w)
    end.

Definition readFile (dir name : string) : M World string :=
  fun w =>
    match lookup_node dir name w with
    | Some (File c) => (Ok c, w)
    | Some (Dir _) => (Throw (EISDIR (path_resolve dir name)), w)
    | None => (Throw (ENOENT (path_resolve dir name)), w)
    end.

Definition writeFile (dir name content : string) : M World unit :=
  fun w =>
    match fs w !! dir with
    | None => (Throw (ENOENT (path_resolve dir name)), w)
    | Some d =>
        match d !! name with
        | Some (Dir _) => (Throw (EISDIR (path_resolve dir name)), w)
        | Some (File _) =>
            (Ok tt, with_fs (<[dir := <[name := File content]> d]> (fs w)) w)
        | None =>
            match create_error dir name with
            | Some e => (Throw e, w)
            | None => (Ok tt, with_fs (<[dir := <[name := File content]> d]> (fs w)) w)
            end
        end
    end.

Definition unlinkSync (dir name : string) : M World unit :=
  fun w =>
    match fs w !! dir with
    | None => (Throw (ENOENT (path_join dir name)), w)
    | Some d =>
        match d !! name with
        | Some (File _) => (Ok tt, with_fs (<[dir := delete name d]> (fs w)) w)
        | Some (Dir _) => (Throw (EISDIR (path_join dir name)), w)
        | None => (Throw (ENOENT (path_join dir name)), w)
        end
    end.

(** ** The engine *)

Record FileSystemCachePlugin := {
  basePath : string;
  defaultTTL : Z
}.

(** Element of the per-file diagnostic list of a sweep.  The source's
    [size] string is formatted from the byte count, kept here as [size_bytes]. *)
Record TLog := {
  file : string;
  ttl : jsnum;
  diff : Q;
  size_bytes : Z;
  valid : bool
}.

Record TValidated := {
  v_ttl : jsnum;
  v_expiresIn : option jsnum       (* [None] is [null] *)
}.

Record TInvalidateResult := {
  r_endpointInvalidateRequestCount : Z;
  r_filesInvalidated : Z;
  r_bytes : Z;
  r_logs : list TLog;
  r_logsOverTime : list TLogsOverTime
}.

Record TFlushResult := {
  r_requestCount : Z;
  r_deleted : Z
}.

(** Local variables of [invalidate]. *)
Record sweep_locals := {
  logs : list TLog;
  filesInvalidated : Z;
  totalSize : Z
}.

(** [this.defaultTTL = defaultTTL || 60]; [None] is an omitted option. *)
Definition constructor (basePath : string) (defaultTTL : option Z)
  : FileSystemCachePlugin :=
  {| basePath := basePath;
     defaultTTL := match defaultTTL with
                   | Some t => if t =? 0 then 60 else t
                   | None => 60
                   end |}.

Definition formatFileName (fileNamePrefix : option string) (fileName : string)
  : string :=
  let fileNamePrefix := default "" fileNamePrefix in
  (if negb (String.eqb fileNamePrefix "") then fileNamePrefix +:+ " hash_"
   else "hash_") +:+ sha256_hex fileName.

Definition incr_invalidate : M World unit :=
  fun w =>
    (Ok tt,
     {| fs := fs w; now := now w;
        GLOBAL_ENDPOINT_INVALIDATE_REQUEST_COUNT :=
          GLOBAL_ENDPOINT_INVALIDATE_REQUEST_COUNT w + 1;
        GLOBAL_ENDPOINT_DELETE_REQUEST_COUNT := GLOBAL_ENDPOINT_DELETE_REQUEST_COUNT w;
        GLOBAL_ENDPOINT_DELETE_BY_REGEX_REQUEST_COUNT :=
          GLOBAL_ENDPOINT_DELETE_BY_REGEX_REQUEST_COUNT w;
        GLOBAL_LOGS_OVER_TIME := GLOBAL_LOGS_OVER_TIME w;
        console := console w |}).

Definition incr_delete : M World unit :=
  fun w =>
    (Ok tt,
     {| fs := fs w; now := now w;
        GLOBAL_ENDPOINT_INVALIDATE_REQUEST_COUNT :=
          GLOBAL_ENDPOINT_INVALIDATE_REQUEST_COUNT w;
        GLOBAL_ENDPOINT_DELETE_REQUEST_COUNT :=
          GLOBAL_ENDPOINT_DELETE_REQUEST_COUNT w + 1;
        GLOBAL_ENDPOINT_DELETE_BY_REGEX_REQUEST_COUNT :=
          GLOBAL_ENDPOINT_DELETE_BY_REGEX_REQUEST_COUNT w;
        GLOBAL_LOGS_OVER_TIME := GLOBAL_LOGS_OVER_TIME w;
        console := console w |}).

Definition incr_delete_by_regex : M World unit :=
  fun w =>
    (Ok tt,
     {| fs := fs w; now := now w;
        GLOBAL_ENDPOINT_INVALIDATE_REQUEST_COUNT :=
          GLOBAL_ENDPOINT_INVALIDATE_REQUEST_COUNT w;
        GLOBAL_ENDPOINT_DELETE_REQUEST_COUNT := GLOBAL_ENDPOINT_DELETE_REQUEST_COUNT w;
        GLOBAL_ENDPOINT_DELETE_BY_REGEX_REQUEST_COUNT :=
          GLOBAL_ENDPOINT_DELETE_BY_REGEX_REQUEST_COUNT w + 1;
        GLOBAL_LOGS_OVER_TIME := GLOBAL_LOGS_OVER_TIME w;
        console := console w |}).

(** [GLOBAL_LOGS_OVER_TIME.push(...)] at the end of a sweep. *)
Definition push_snapshot (total : Z) (w : World) : World :=
  {| fs := fs w; now := now w;
     GLOBAL_ENDPOINT_INVALIDATE_REQUEST_COUNT :=
       GLOBAL_ENDPOINT_INVALIDATE_REQUEST_COUNT w;
     GLOBAL_ENDPOINT_DELETE_REQUEST_COUNT := GLOBAL_ENDPOINT_DELETE_REQUEST_COUNT w;
     GLOBAL_ENDPOINT_DELETE_BY_REGEX_REQUEST_COUNT :=
       GLOBAL_ENDPOINT_DELETE_BY_REGEX_REQUEST_COUNT w;
     GLOBAL_LOGS_OVER_TIME :=
       GLOBAL_LOGS_OVER_TIME w ++
       [ {| id := now w;
            bytes := total;
            endpointInvalidateRequestCount :=
              GLOBAL_ENDPOINT_INVALIDATE_REQUEST_COUNT w;
            endpointDeleteRequestCount := GLOBAL_ENDPOINT_DELETE_REQUEST_COUNT w;
            endpointDeleteByRegexRequestCount :=
              GLOBAL_ENDPOINT_DELETE_BY_REGEX_REQUEST_COUNT w |} ];
     console := console w |}.

Definition of_outcome {S A} (o : outcome A) : M S A := fun s => (o, s).

Section Engine.

(** The platform's JSON codec: [JSON_parse] yields [None] where
    [JSON.parse] throws a SyntaxError. *)
Variable JSON_stringify : json -> string.
Variable JSON_parse : string -> option json.

(** [new RegExp(pattern)]: the predicate "the pattern matches somewhere in
    the subject", or [None] for a malformed pattern (SyntaxError). *)
Variable RegExp : string -> option (string -> bool).

(** ToNumber of a string, an array or an object. *)
Variable ToNumber_other : json -> outcome jsnum.

Definition ToNumber (v : jsvalue) : outcome jsnum :=
  match v with
  | Undefined => Ok NaN
  | Val JNull => Ok (Num 0)
  | Val (JBool b) => Ok (Num (if b then 1 else 0))
  | Val (JNum n) => Ok (Num (inject_Z n))
  | Val j => ToNumber_other j
  end.

Definition parse (content : string) : M World json :=
  match JSON_parse content with
  | Some data => ret data
  | None => throw SyntaxError
  end.

(** [subject.match(pattern)] used as a condition *)
Definition String_match (subject pattern : string) : M World bool :=
  match RegExp pattern with
  | Some test => ret (test subject)
  | None => throw SyntaxError
  end.

Variable this : FileSystemCachePlugin.

Definition set (fileNamePrefix : option string) (fileName : string)
    (payload : jsvalue) (ttl : option Z) : M World string :=
  let fileNamePrefix := default "" fileNamePrefix in
  let ttl := default (defaultTTL this) ttl in
  let FILE_TTL := number_mul ttl 1000 in
  let FILE_NAME := formatFileName (Some fileNamePrefix) fileName in
  try_catch
    (let cacheFolderPath := basePath this in
     mkdir_recursive cacheFolderPath ;;;
     let filePath := path_resolve cacheFolderPath FILE_NAME in
     let dataToStore := Object payload in
     t <- Date_now ;;
     let data :=
       JObj [ ("payload", dataToStore);
              ("ttl", json_of_number FILE_TTL);
              ("expiration",
               if number_truthy FILE_TTL
               then json_of_number (number_add t FILE_TTL)
               else JNull) ] in
     writeFile cacheFolderPath FILE_NAME (JSON_stringify data) ;;;
     ret filePath)
    (fun err => console_error "Error:" err ;;; throw err).

Definition get (fileNamePrefix : option string) (fileName : string)
  : M World jsvalue :=
  let fileNamePrefix := default "" fileNamePrefix in
  let FILE_NAME := formatFileName (Some fileNamePrefix) fileName in
  try_catch
    (stats <- stat (basePath this) FILE_NAME ;;
     if negb (isFile stats)
     then throw (Error ("File " +:+ FILE_NAME +:+ " does not exist in the cache folder."))
     else
       fileContent <- readFile (basePath this) FILE_NAME ;;
       data <- parse fileContent ;;
       of_outcome (getprop data "payload"))
    (fun err => throw err).

Definition validateFile (fileName : string) : M World (option TValidated) :=
  let FILE_NAME := fileName in
  try_catch
    (stats <- stat (basePath this) FILE_NAME ;;
     if negb (isFile stats)
     then throw (Error ("File " +:+ fileName +:+ " does not exist in the cache folder."))
     else
       fileContent <- readFile (basePath this) FILE_NAME ;;
       data <- parse fileContent ;;
       expiration <- of_outcome (getprop data "expiration") ;;
       expiresIn <-
         (if truthy expiration
          then
            e <- of_outcome (ToNumber expiration) ;;
            t <- Date_now ;;
            ret (Some (Math_max0 (num_div1000 (num_sub e (Num (inject_Z t))))))
          else ret None) ;;
       data_ttl <- of_outcome (getprop data "ttl") ;;
       n <- of_outcome (ToNumber data_ttl) ;;
       ret (Some {| v_ttl := num_div1000 n; v_expiresIn := expiresIn |}))
    (fun _ => ret None).

(** The body of the [for] loop of [invalidate]. *)
Definition invalidate_file (file : string) : M (sweep_locals * World) unit :=
  stats <- lift (stat (basePath this) file) ;;
  try_catch
    (validated <- lift (validateFile file) ;;
     let r := default {| v_ttl := Num 0; v_expiresIn := Some (Num 0) |} validated in
     let invalid := Qle_bool (or_zero (v_expiresIn r)) 0 in
     locally (fun l => {| logs := logs l;
                          filesInvalidated := filesInvalidated l;
                          totalSize := totalSize l + size stats |}) ;;;
     (if invalid
      then
        lift (unlinkSync (basePath this) file) ;;;
        locally (fun l => {| logs := logs l;
                             filesInvalidated := filesInvalidated l + 1;
                             totalSize := totalSize l |})
      else ret tt) ;;;
     locally (fun l => {| logs := logs l ++
                                  [ {| file := file;
                                       ttl := v_ttl r;
                                       diff := or_zero (v_expiresIn r);
                                       size_bytes := size stats;
                                       valid := negb invalid |} ];
                          filesInvalidated := filesInvalidated l;
                          totalSize := totalSize l |}))
    (fun _ => ret tt).

Definition invalidate : M World TInvalidateResult :=
  fun w =>
    let '(_, (l, w1)) :=
      try_catch
        (files <- lift (readdirSync (basePath this)) ;;
         lift incr_invalidate ;;;
         for_of files invalidate_file)
        (fun _ => ret tt)
        ({| logs := []; filesInvalidated := 0; totalSize := 0 |}, w) in
    let w2 := push_snapshot (totalSize l) w1 in
    (Ok {| r_endpointInvalidateRequestCount :=
             GLOBAL_ENDPOINT_INVALIDATE_REQUEST_COUNT w2;
           r_filesInvalidated := filesInvalidated l;
           r_bytes := totalSize l;
           r_logs := logs l;
           r_logsOverTime := GLOBAL_LOGS_OVER_TIME w2 |},
     w2).

(** The [for] loop of [flushByRegex], with its local [deleted]. *)
Fixpoint flushByRegex_loop (org regex : string) (files : list string)
    (deleted : Z) : M World Z :=
  match files with
  | [] => ret deleted
  | file :: rest =>
      m_org <- String_match file org ;;
      m <- (if m_org then String_match file regex else ret false) ;;
      if m
      then
        unlinkSync (basePath this) file ;;;
        flushByRegex_loop org regex rest (deleted + 1)
      else flushByRegex_loop org regex rest deleted
  end.

Definition flushByRegex (org : string) (regex : option string)
  : M World (option TFlushResult) :=
  let regex := default "" regex in
  try_catch
    (incr_delete_by_regex ;;;
     files <- readdirSync (basePath this) ;;
     deleted <- flushByRegex_loop org regex files 0 ;;
     fun w =>
       (Ok (Some {| r_requestCount := GLOBAL_ENDPOINT_DELETE_BY_REGEX_REQUEST_COUNT w;
                    r_deleted := deleted |}), w))
    (fun error =>
       console_error "Error reading cache folder:" error ;;; ret None).

Definition flushAll : M World (option TFlushResult) :=
  try_catch
    (incr_delete ;;;
     files <- readdirSync (basePath this) ;;
     for_of files (fun file => unlinkSync (basePath this) file) ;;;
     fun w =>
       (Ok (Some {| r_requestCount := GLOBAL_ENDPOINT_DELETE_REQUEST_COUNT w;
                    r_deleted := Z.of_nat (length files) |}), w))
    (fun error =>
       console_error "Error reading cache folder:" error ;;; ret None).

End Engine.


(** ** A concrete platform

    An executable JSON codec for the trees above and a matcher for literal
    patterns.  They instantiate the parameters of the engine wherever a
    statement is evaluated on concrete files. *)

Module Node.

Definition dquote : ascii := ascii_of_nat 34.
Definition backslash : ascii := ascii_of_nat 92.

Definition is_digit (c : ascii) : bool :=
  (48 <=? nat_of_ascii c)%nat && (nat_of_ascii c <=? 57)%nat.

Definition digit_val (c : ascii) : Z := Z.of_nat (nat_of_ascii c) - 48.

Definition hex_val (c : ascii) : option nat :=
  let n := nat_of_ascii c in
  if (48 <=? n)%nat && (n <=? 57)%nat then Some (n - 48)%nat
  else if (97 <=? n)%nat && (n <=? 102)%nat then Some (n - 87)%nat
  else if (65 <=? n)%nat && (n <=? 70)%nat then Some (n - 55)%nat
  else None.

Definition hex_char (n : nat) : ascii :=
  if (n <? 10)%nat then ascii_of_nat (48 + n) else ascii_of_nat (87 + n).

(** The characters of a string literal, escaped as [JSON.stringify] does. *)
Fixpoint escape (s : string) : string :=
  match s with
  | EmptyString => EmptyString
  | String c rest =>
      let n := nat_of_ascii c in
      if (n =? 34)%nat then String backslash (String dquote (escape rest))
      else if (n =? 92)%nat then String backslash (String backslash (escape rest))
      else if (n =? 8)%nat then String backslash (String "b" (escape rest))
      else if (n =? 9)%nat then String backslash (String "t" (escape rest))
      else if (n =? 10)%nat then String backslash (String "n" (escape rest))
      else if (n =? 12)%nat then String backslash (String "f" (escape rest))
      else if (n =? 13)%nat then String backslash (String "r" (escape rest))
      else if (n <? 32)%nat
      then String backslash (String "u" (String "0" (String "0"
             (String (hex_char (n / 16)) (String (hex_char (n mod 16)) (escape rest))))))
      else String c (escape rest)
  end.

Definition quote (s : string) : string :=
  String dquote (escape s +:+ String dquote EmptyString).

Definition digits (n : Z) : string := NilZero.string_of_int (Z.to_int n).

Fixpoint join (sep : string) (parts : list string) : string :=
  match parts with
  | [] => EmptyString
  | [p] => p
  | p :: rest => p +:+ sep +:+ join sep rest
  end.

Fixpoint stringify (j : json) : string :=
  match j with
  | JNull => "null"
  | JBool true => "true"
  | JBool false => "false"
  | JNum n => digits n
  | JStr s => quote s
  | JArr items => "[" +:+ join "," (map stringify items) +:+ "]"
  | JObj props =>
      "{" +:+ join "," (map (fun kv => quote (fst kv) +:+ ":" +:+ stringify (snd kv)) props)
          +:+ "}"
  end.

Inductive token : Type :=
  | TLBrace | TRBrace | TLBracket | TRBracket | TComma | TColon
  | TString (s : string)
  | TNumber (n : Z)
  | TTrue | TFalse | TNull.

(** The rest of a string literal after its opening quote: the decoded
    characters (accumulated in reverse) and what follows the closing quote. *)
Fixpoint lex_string (s : string) (acc : list ascii) : option (string * string) :=
  match s with
  | EmptyString => None
  | String c rest =>
      let n := nat_of_ascii c in
      if (n =? 34)%nat then Some (string_of_list_ascii (rev acc), rest)
      else if (n =? 92)%nat then
        match rest with
        | String e rest' =>
            let m := nat_of_ascii e in
            if (m =? 34)%nat then lex_string rest' (dquote :: acc)
            else if (m =? 92)%nat then lex_string rest' (backslash :: acc)
            else if (m =? 47)%nat then lex_string rest' (ascii_of_nat 47 :: acc)
            else if (m =? 98)%nat then lex_string rest' (ascii_of_nat 8 :: acc)
            else if (m =? 116)%nat then lex_string rest' (ascii_of_nat 9 :: acc)
            else if (m =? 110)%nat then lex_string rest' (ascii_of_nat 10 :: acc)
            else if (m =? 102)%nat then lex_string rest' (ascii_of_nat 12 :: acc)
            else if (m =? 114)%nat then lex_string rest' (ascii_of_nat 13 :: acc)
            else if (m =? 117)%nat then
              match rest' with
              | String h3 (String h2 (String h1 (String h0 rest''))) =>
                  match hex_val h3, hex_val h2, hex_val h1, hex_val h0 with
                  | Some 0%nat, Some 0%nat, Some a, Some b =>
                      if (a <? 8)%nat
                      then lex_string rest'' (ascii_of_nat (16 * a + b) :: acc)
                      else None
                  | _, _, _, _ => None
                  end
              | _ => None
              end
            else None
        | EmptyString => None
        end
      else if (n <? 32)%nat then None
      else lex_string rest (c :: acc)
  end.

Fixpoint lex_digits (s : string) (acc : Z) : Z * string :=
  match s with
  | EmptyString => (acc, s)
  | String c rest =>
      if is_digit c then lex_digits rest (10 * acc + digit_val c) else (acc, s)
  end.

Fixpoint drop (n : nat) (s : string) : string :=
  match n, s with
  | S n', String _ rest => drop n' rest
  | _, _ => s
  end.

Definition is_space (c : ascii) : bool :=
  let n := nat_of_ascii c in
  (n =? 32)%nat || (n =? 9)%nat || (n =? 10)%nat || (n =? 13)%nat.

Fixpoint lex (fuel : nat) (s : string) : option (list token) :=
  match fuel with
  | O => None
  | S fuel' =>
      match s with
      | EmptyString => Some []
      | String c rest =>
          let n := nat_of_ascii c in
          if is_space c then lex fuel' rest
          else if (n =? 123)%nat then cons TLBrace <$> lex fuel' rest
          else if (n =? 125)%nat then cons TRBrace <$> lex fuel' rest
          else if (n =? 91)%nat then cons TLBracket <$> lex fuel' rest
          else if (n =? 93)%nat then cons TRBracket <$> lex fuel' rest
          else if (n =? 44)%nat then cons TComma <$> lex fuel' rest
          else if (n =? 58)%nat then cons TColon <$> lex fuel' rest
          else if (n =? 34)%nat then
            match lex_string rest [] with
            | Some (str, rest') => cons (TString str) <$> lex fuel' rest'
            | None => None
            end
          else if (n =? 45)%nat then
            match rest with
            | String d _ =>
                if is_digit d
                then let '(v, rest') := lex_digits rest 0 in
                     cons (TNumber (- v)) <$> lex fuel' rest'
                else None
            | EmptyString => None
            end
          else if is_digit c then
            let '(v, rest') := lex_digits s 0 in
            cons (TNumber v) <$> lex fuel' rest'
          else if String.prefix "true" s then cons TTrue <$> lex fuel' (drop 4 s)
          else if String.prefix "false" s then cons TFalse <$> lex fuel' (drop 5 s)
          else if String.prefix "null" s then cons TNull <$> lex fuel' (drop 4 s)
          else None
      end
  end.

(** A repeated key keeps its first position and takes the last value. *)
Fixpoint obj_put (k : string) (v : json) (props : list (string * json))
  : list (string * json) :=
  match props with
  | [] => [(k, v)]
  | (k', v') :: rest =>
      if String.eqb k k' then (k', v) :: rest else (k', v') :: obj_put k v rest
  end.

Fixpoint parse_value (fuel : nat) (ts : list token) : option (json * list token) :=
  match fuel with
  | O => None
  | S fuel' =>
      match ts with
      | TNull :: r => Some (JNull, r)
      | TTrue :: r => Some (JBool true, r)
      | TFalse :: r => Some (JBool false, r)
      | TNumber n :: r => Some (JNum n, r)
      | TString s :: r => Some (JStr s, r)
      | TLBracket :: TRBracket :: r => Some (JArr [], r)
      | TLBracket :: r => parse_elements fuel' r []
      | TLBrace :: TRBrace :: r => Some (JObj [], r)
      | TLBrace :: r => parse_members fuel' r []
      | _ => None
      end
  end
with parse_elements (fuel : nat) (ts : list token) (acc : list json)
  : option (json * list token) :=
  match fuel with
  | O => None
  | S fuel' =>
      match parse_value fuel' ts with
      | Some (v, TComma :: r) => parse_elements fuel' r (acc ++ [v])
      | Some (v, TRBracket :: r) => Some (JArr (acc ++ [v]), r)
      | _ => None
      end
  end
with parse_members (fuel : nat) (ts : list token) (acc : list (string * json))
  : option (json * list token) :=
  match fuel with
  | O => None
  | S fuel' =>
      match ts with
      | TString k :: TColon :: r =>
          match parse_value fuel' r with
          | Some (v, TComma :: r') => parse_members fuel' r' (obj_put k v acc)
          | Some (v, TRBrace :: r') => Some (JObj (obj_put k v acc), r')
          | _ => None
          end
      | _ => None
      end
  end.

Definition JSON_stringify : json -> string := stringify.

Definition JSON_parse (text : string) : option json :=
  match lex (S (String.length text)) text with
  | Some ts =>
      match parse_value (S (length ts)) ts with
      | Some (v, []) => Some v
      | _ => None
      end
  | None => None
  end.

(** Characters with a meaning in a regular expression. *)
Definition is_meta (c : ascii) : bool :=
  existsb (Ascii.eqb c)
    (list_ascii_of_string "\^$.|?*+()[]{}").

Definition contains (pattern subject : string) : bool :=
  match String.index 0 pattern subject with
  | Some _ => true
  | None => false
  end.

(** [new RegExp(pattern)] for a literal pattern, which matches where it
    occurs as a substring.  A pattern with a metacharacter is outside this
    instance and is answered like a malformed one. *)
Definition RegExp (pattern : string) : option (string -> bool) :=
  if existsb is_meta (list_ascii_of_string pattern) then None
  else Some (contains pattern).

(** The concrete entries below hold numbers or [null] in their [ttl] and
    [expiration] fields, so this conversion is never reached on them. *)
Definition ToNumber_other (j : json) : outcome jsnum := Ok NaN.

End Node.


(** ** Vocabulary of the statements *)

(** The document [set] writes for a payload already passed through
    [Object], a TTL in milliseconds and the time of the write. *)
Definition entry (dataToStore : json) (FILE_TTL t : Z) : json :=
  JObj [ ("payload", dataToStore);
         ("ttl", JNum FILE_TTL);
         ("expiration", if FILE_TTL =? 0 then JNull else JNum (t + FILE_TTL)) ].

(** The document [set] writes for a payload already passed through
    [Object], a TTL in seconds and the time of the write, computed as the
    code computes it, in doubles. *)
Definition document (dataToStore : json) (ttl t : Z) : json :=
  let FILE_TTL := number_mul ttl 1000 in
  JObj [ ("payload", dataToStore);
         ("ttl", json_of_number FILE_TTL);
         ("expiration",
          if number_truthy FILE_TTL
          then json_of_number (number_add t FILE_TTL)
          else JNull) ].

(** An integer that a double holds exactly, as do its neighbours. *)
Definition safe_integer (z : Z) : Prop := Z.abs z <= MAX_SAFE_INTEGER.

(** The condition [invalid] that [invalidate] computes for [file] in the
    world [w]: the outcome of [validateFile], replaced by
    [{ ttl: 0, expiresIn: 0 }] when it is [undefined], has
    [(expiresIn || 0) <= 0]. *)
Definition invalid (JSON_parse : string -> option json)
    (ToNumber_other : json -> outcome jsnum) (this : FileSystemCachePlugin)
    (file : string) (w : World) : bool :=
  match fst (validateFile JSON_parse ToNumber_other this file w) with
  | Ok validated =>
      Qle_bool
        (or_zero (v_expiresIn
                    (default {| v_ttl := Num 0; v_expiresIn := Some (Num 0) |} validated)))
        0
  | Throw _ => true
  end.

(** What a sweep leaves of one directory entry: a regular file found
    invalid is unlinked, everything else stays. *)
Definition after_sweep (JSON_parse : string -> option json)
    (ToNumber_other : json -> outcome jsnum) (this : FileSystemCachePlugin)
    (w : World) (name : string) : option node :=
  match lookup_node (basePath this) name w with
  | Some (File c) =>
      if invalid JSON_parse ToNumber_other this name w then None else Some (File c)
  | other => other
  end.

Definition is_File (n : node) : bool :=
  match n with
  | File _ => true
  | Dir _ => false
  end.

(** The world apart from its file system. *)
Definition same_globals (w w' : World) : Prop :=
  now w' = now w /\
  GLOBAL_ENDPOINT_INVALIDATE_REQUEST_COUNT w' = GLOBAL_ENDPOINT_INVALIDATE_REQUEST_COUNT w /\
  GLOBAL_ENDPOINT_DELETE_REQUEST_COUNT w' = GLOBAL_ENDPOINT_DELETE_REQUEST_COUNT w /\
  GLOBAL_ENDPOINT_DELETE_BY_REGEX_REQUEST_COUNT w' =
    GLOBAL_ENDPOINT_DELETE_BY_REGEX_REQUEST_COUNT w /\
  GLOBAL_LOGS_OVER_TIME w' = GLOBAL_LOGS_OVER_TIME w /\
  console w' = console w.

(** ** Concrete worlds for evaluation *)

Definition empty_world (t : Z) : World :=
  {| fs := ∅; now := t;
     GLOBAL_ENDPOINT_INVALIDATE_REQUEST_COUNT := 0;
     GLOBAL_ENDPOINT_DELETE_REQUEST_COUNT := 0;
     GLOBAL_ENDPOINT_DELETE_BY_REGEX_REQUEST_COUNT := 0;
     GLOBAL_LOGS_OVER_TIME := [];
     console := [] |}.

(** A world whose only directory is [dir], with the given entries. *)
Definition world_of (dir : string) (entries : list (string * node)) (t : Z) : World :=
  with_fs {[ dir := list_to_map entries ]} (empty_world t).

(** An engine on [/cache] with the default TTL. *)
Definition cache : FileSystemCachePlugin := constructor "/cache" None.

Definition profile : json :=
  JObj [ ("id", JNum 42); ("tags", JArr [JStr "a"; JStr "b"]) ].

(** [set] with [ttl = 0] at time 1000, on an empty disk. *)
Definition world_never_expiring : World :=
  snd (set Node.JSON_stringify cache (Some "acme") "user:42" (Val profile) (Some 0)
         (empty_world 1000)).

(** [set] with [ttl = 1] (second) at time 1000: the entry expires at 2000. *)
Definition world_short_lived : World :=
  snd (set Node.JSON_stringify cache (Some "acme") "user:42" (Val profile) (Some 1)
         (empty_world 1000)).

(** At time 5000: a file that is not JSON, an entry valid until 61000 and
    one that expired at 2000. *)
Definition world_mixed : World :=
  world_of "/cache"
    [ ("broken", File "{not json");
      ("live", File (Node.JSON_stringify (entry (JNum 1) 60000 1000)));
      ("old", File (Node.JSON_stringify (entry (JNum 2) 1000 1000))) ]
    5000.

(** A cache directory that holds a sub-directory; it is listed as
    [alpha], [beta], [omega], [sub], [zeta]. *)
Definition world_subdir : World :=
  world_of "/cache"
    [ ("alpha", File "1"); ("sub", Dir 4096); ("omega", File "3"); ("beta", File "4");
      ("zeta", File "5") ]
    1000.

Definition world_acme : World :=
  world_of "/cache"
    [ ("acme hash_111", File "1"); ("acme hash_222", File "2");
      ("other hash_333", File "3") ]
    1000.


(** ** Vocabulary of the sweep report *)

Definition sum_Z (xs : list Z) : Z := foldr Z.add 0 xs.

(** The size [statSync] reports for an entry of the engine's directory. *)
Definition entry_size (this : FileSystemCachePlugin) (w : World) (name : string) : Z :=
  match lookup_node (basePath this) name w with
  | Some n => size (node_stats n)
  | None => 0
  end.

Definition is_regular (this : FileSystemCachePlugin) (w : World) (name : string)
  : bool :=
  match lookup_node (basePath this) name w with
  | Some (File _) => true
  | _ => false
  end.

(** The entries a sweep unlinks: the regular files it finds invalid. *)
Definition swept (JSON_parse : string -> option json)
    (ToNumber_other : json -> outcome jsnum) (this : FileSystemCachePlugin)
    (w : World) (name : string) : bool :=
  is_regular this w name && invalid JSON_parse ToNumber_other this name w.

(** The key of [settings] holds text that is not JSON. *)
Definition world_corrupt : World :=
  world_of "/cache" [ (formatFileName None "settings", File "{not json") ] 1000.

(** The key of [settings] is taken by a directory. *)
Definition world_key_is_directory : World :=
  world_of "/cache" [ (formatFileName None "settings", Dir 4096) ] 1000.

(** A directory matched by the pattern [acme]; the entries are listed as
    [acme hash_111], [acme hash_222], [acme sub], [acme tail],
    [other hash_333]. *)
Definition world_acme_subdir : World :=
  world_of "/cache"
    [ ("acme hash_111", File "1"); ("acme sub", Dir 4096);
      ("other hash_333", File "3"); ("acme hash_222", File "22");
      ("acme tail", File "4") ]
    1000.

(** The cache directory exists and is empty. *)
Definition world_empty_cache : World := world_of "/cache" [] 1000.

(** An engine whose default TTL, in milliseconds, is past the largest
    double. *)
Definition cache_huge_ttl : FileSystemCachePlugin := constructor "/cache" (Some (2 ^ 1020)).

(** * Properties *)

(** ** Digest test vectors (FIPS 180-4, appendix B) *)

Example sha256_constants :
  nth 0 SHA256.K 0 = 0x428a2f98 /\ nth 63 SHA256.K 0 = 0xc67178f2 /\
  length SHA256.K = 64%nat /\
  SHA256.sa SHA256.H0 = 0x6a09e667 /\ SHA256.sh SHA256.H0 = 0x5be0cd19.
Proof. repeat split. Qed.

Example sha256_abc :
  sha256_hex "abc" = "ba7816bf8f01cfea414140de5dae2223b00361a396177a9cb410ff61f20015ad".
Proof. vm_compute. reflexivity. Qed.

Example sha256_empty :
  sha256_hex "" = "e3b0c44298fc1c149afbf4c8996fb92427ae41e4649b934ca495991b7852b855".
Proof. vm_compute. reflexivity. Qed.

Example sha256_two_blocks :
  sha256_hex "aaaaaaaaaaaaaaaaaaaaaaaaaaaaaaaaaaaaaaaaaaaaaaaaaaaaaaaa" =
  "b35439a4ac6f0948b6d6f9e3c6af0f5f590ce20f1bde7090ef7970686ec6738a".
Proof. vm_compute. reflexivity. Qed.

Lemma hex32_length (x : Z) : String.length (SHA256.hex32 x) = 8%nat.
Proof. reflexivity. Qed.

Lemma string_length_app (s1 s2 : string) :
  String.length (s1 +:+ s2) = (String.length s1 + String.length s2)%nat.
Proof.
  induction s1 as [|c s1 IH]; [done |].
  change (S (String.length (s1 +:+ s2)) = S (String.length s1 + String.length s2)).
  by rewrite IH.
Qed.

Lemma sha256_hex_length (s : string) : String.length (sha256_hex s) = 64%nat.
Proof.
  unfold sha256_hex, SHA256.hex.
  rewrite !string_length_app, !hex32_length. reflexivity.
Qed.

(** ** Rounding to a double *)

Example round_to_double_examples :
  round_to_double (2 ^ 53) = Int (2 ^ 53) /\
  round_to_double (2 ^ 53 + 1) = Int (2 ^ 53) /\
  round_to_double (2 ^ 53 + 2) = Int (2 ^ 53 + 2) /\
  round_to_double (2 ^ 53 + 3) = Int (2 ^ 53 + 4) /\
  round_to_double (- (2 ^ 53 + 3)) = Int (- (2 ^ 53 + 4)) /\
  round_to_double (2 ^ 1024 - 2 ^ 970 - 1) = Int (2 ^ 1024 - 2 ^ 971) /\
  round_to_double (2 ^ 1024 - 2 ^ 970) = Infinity /\
  round_to_double (- 2 ^ 1024) = NegInfinity.
Proof. repeat split; vm_compute; reflexivity. Qed.

(** ** Key derivation *)

Lemma formatFileName_default (prefix : option string) (name : string) :
  formatFileName (Some (default "" prefix)) name = formatFileName prefix name.
Proof. by destruct prefix. Qed.

Lemma string_app_assoc (s1 s2 s3 : string) :
  (s1 +:+ s2) +:+ s3 = s1 +:+ (s2 +:+ s3).
Proof.
  induction s1 as [|c s1 IH]; [done |].
  change (String c ((s1 +:+ s2) +:+ s3) = String c (s1 +:+ (s2 +:+ s3))).
  by rewrite IH.
Qed.

Lemma formatFileName_prefix (p name : string) :
  p ≠ "" -> formatFileName (Some p) name = p +:+ " hash_" +:+ sha256_hex name.
Proof.
  intros Hp. unfold formatFileName. simpl.
  destruct (String.eqb_spec p ""); [done |]. simpl.
  apply string_app_assoc.
Qed.

Lemma formatFileName_no_prefix (name : string) :
  formatFileName None name = "hash_" +:+ sha256_hex name /\
  formatFileName (Some "") name = "hash_" +:+ sha256_hex name.
Proof. split; reflexivity. Qed.

(** C7 -- key derivation.  The derived key is the SHA-256 digest of the
    logical name alone, in 64 hexadecimal characters, behind a literal label:
    [<prefix> hash_<digest>] for a non-empty prefix and [hash_<digest>] when
    the prefix is omitted or empty (the code's own default); the key is a
    function of the pair, so equal pairs give equal keys. *)
Theorem formatFileName_spec (prefix : option string) (name : string) :
  formatFileName prefix name =
    (match prefix with
     | Some p => if String.eqb p "" then "hash_" else p +:+ " hash_"
     | None => "hash_"
     end) +:+ sha256_hex name /\
  String.length (sha256_hex name) = 64%nat /\
  (forall prefix' name',
     prefix' = prefix -> name' = name ->
     formatFileName prefix' name' = formatFileName prefix name).
Proof.
  split; [| split].
  - destruct prefix as [p|]; [| reflexivity].
    unfold formatFileName; simpl. by destruct (String.eqb p "").
  - apply sha256_hex_length.
  - by intros ? ? -> ->.
Qed.

Lemma formatFileName_spec_witness :
  formatFileName (Some "acme") "user:42" =
    "acme hash_ea3fd43be1e57d62e163dae19fc740bd6d660eec497235fd0ef859e2bd9fa328" /\
  formatFileName None "user:42" =
    "hash_ea3fd43be1e57d62e163dae19fc740bd6d660eec497235fd0ef859e2bd9fa328".
Proof.
  split.
  - rewrite (proj1 (formatFileName_spec (Some "acme") "user:42")).
    vm_compute. reflexivity.
  - rewrite (proj1 (formatFileName_spec None "user:42")).
    vm_compute. reflexivity.
Defined.

(** ** [set] and [get] *)

Section Facts.

Variable JSON_stringify : json -> string.
Variable JSON_parse : string -> option json.
Variable RegExp : string -> option (string -> bool).
Variable ToNumber_other : json -> outcome jsnum.
Variable this : FileSystemCachePlugin.

Lemma bind_ok {S A B} (m : M S A) (k : A -> M S B) (s s' : S) (a : A) :
  m s = (Ok a, s') -> bind m k s = k a s'.
Proof. intros H. unfold bind. by rewrite H. Qed.

Lemma bind_throw {S A B} (m : M S A) (k : A -> M S B) (s s' : S) (e : error) :
  m s = (Throw e, s') -> bind m k s = (Throw e, s').
Proof. intros H. unfold bind. by rewrite H. Qed.

Lemma try_catch_ok {S A} (m : M S A) (h : error -> M S A) (s s' : S) (a : A) :
  m s = (Ok a, s') -> try_catch m h s = (Ok a, s').
Proof. intros H. unfold try_catch. by rewrite H. Qed.

Lemma try_catch_throw {S A} (m : M S A) (h : error -> M S A) (s s' : S) (e : error) :
  m s = (Throw e, s') -> try_catch m h s = h e s'.
Proof. intros H. unfold try_catch. by rewrite H. Qed.

Lemma lift_eq {L A} (m : M World A) (l : L) (w w' : World) (r : outcome A) :
  m w = (r, w') -> lift m (l, w) = (r, (l, w')).
Proof. intros H. unfold lift. simpl. by rewrite H. Qed.

Lemma readdirSync_ok (dir : string) (w : World) (d : gmap string node) :
  fs w !! dir = Some d -> readdirSync dir w = (Ok (scandir d), w).
Proof. intros H. unfold readdirSync. by rewrite H. Qed.

Lemma readdirSync_missing (dir : string) (w : World) :
  fs w !! dir = None -> readdirSync dir w = (Throw (ENOENT dir), w).
Proof. intros H. unfold readdirSync. by rewrite H. Qed.

Lemma with_fs_id (w : World) : with_fs (fs w) w = w.
Proof. by destruct w. Qed.

(** The listing holds every entry of the directory once, sorted by name. *)
Lemma scandir_Permutation (d : gmap string node) :
  scandir d ≡ₚ (map_to_list d).*1.
Proof. apply merge_sort_Permutation. Qed.

Lemma scandir_NoDup (d : gmap string node) : NoDup (scandir d).
Proof. rewrite scandir_Permutation. apply NoDup_fst_map_to_list. Qed.

Lemma scandir_Sorted (d : gmap string node) : Sorted name_le (scandir d).
Proof.
  apply Sorted_merge_sort. intros x y. unfold name_le. apply String.leb_total.
Qed.

Lemma scandir_length (d : gmap string node) : length (scandir d) = base.size d.
Proof. by rewrite scandir_Permutation, length_fmap, length_map_to_list. Qed.

Lemma scandir_nil (d : gmap string node) : scandir d = [] <-> d = ∅.
Proof.
  split.
  - intros H. apply map_size_empty_iff. by rewrite <- scandir_length, H.
  - intros ->. apply length_zero_iff_nil. by rewrite scandir_length, map_size_empty.
Qed.

Lemma listing_elem (d : gmap string node) (name : string) :
  name ∈ scandir d <-> is_Some (d !! name).
Proof.
  rewrite scandir_Permutation, list_elem_of_fmap. split.
  - intros ([f n] & -> & Hf). apply elem_of_map_to_list in Hf. by exists n.
  - intros [n Hn]. exists (name, n). split; [done |]. by apply elem_of_map_to_list.
Qed.

Lemma filter_length_Permutation {A} (f : A -> bool) (l1 l2 : list A) :
  l1 ≡ₚ l2 -> length (List.filter f l1) = length (List.filter f l2).
Proof.
  induction 1 as [| x l1 l2 _ IH | x y l | l1 l2 l3 _ IH1 _ IH2]; simpl.
  - reflexivity.
  - destruct (f x); simpl; by rewrite IH.
  - by destruct (f x), (f y).
  - by rewrite IH1.
Qed.

Lemma lookup_node_with_fs (f : gmap string (gmap string node)) (w : World)
    (dir name : string) :
  lookup_node dir name (with_fs f w) = f !! dir ≫= fun d => d !! name.
Proof. reflexivity. Qed.

Lemma lookup_node_at_time (t : Z) (w : World) (dir name : string) :
  lookup_node dir name (at_time t w) = lookup_node dir name w.
Proof. reflexivity. Qed.

(** *** Doubles on safe integers *)

Lemma round_to_double_safe (z : Z) : safe_integer z -> round_to_double z = Int z.
Proof.
  unfold safe_integer, MAX_SAFE_INTEGER, round_to_double. intros Hz. cbv zeta.
  assert (He : Z.log2 (Z.abs z) - 52 <= 0).
  { destruct (Z.eq_dec (Z.abs z) 0) as [-> | Hnz]; [simpl; lia |].
    assert (Z.log2 (Z.abs z) < 53); [| lia].
    apply Z.log2_lt_pow2; lia. }
  apply Z.leb_le in He. by rewrite He.
Qed.

(** Within the safe integers the document is the exact one. *)
Lemma document_safe (dataToStore : json) (ttl t : Z) :
  safe_integer (ttl * 1000) ->
  safe_integer (t + ttl * 1000) ->
  document dataToStore ttl t =
    JObj [ ("payload", dataToStore);
           ("ttl", JNum (ttl * 1000));
           ("expiration", if ttl * 1000 =? 0 then JNull else JNum (t + ttl * 1000)) ].
Proof.
  intros H1 H2. unfold document, number_mul. cbv zeta.
  rewrite (round_to_double_safe _ H1). simpl.
  rewrite (round_to_double_safe _ H2). by destruct (ttl * 1000 =? 0).
Qed.

(** *** Creating the cache directory *)

Lemma same_globals_refl (w : World) : same_globals w w.
Proof. by repeat split. Qed.

Lemma same_globals_trans (w1 w2 w3 : World) :
  same_globals w1 w2 -> same_globals w2 w3 -> same_globals w1 w3.
Proof.
  unfold same_globals. intros (? & ? & ? & ? & ? & ?) (? & ? & ? & ? & ? & ?).
  repeat split; congruence.
Qed.

Lemma mkdir_missing_globals (path : string) (blocked : string -> error) (w : World) :
  same_globals w (snd (mkdir_missing path blocked w)).
Proof.
  unfold mkdir_missing.
  destruct (has_char NUL path); [apply same_globals_refl |].
  destruct (_ || _); [apply same_globals_refl |].
  destruct (fs w !! dirname path) as [parent|]; [| by repeat split].
  destruct (parent !! basename path) as [[c|sz]|]; by repeat split.
Qed.

Lemma mkdir_globals (path : string) (blocked : string -> error) (w : World) :
  same_globals w (snd (mkdir path blocked w)).
Proof.
  unfold mkdir. destruct (fs w !! path); [apply same_globals_refl |].
  apply mkdir_missing_globals.
Qed.

Lemma mkdir_loop_globals (paths : list string) (blocked : string -> error) (w : World) :
  same_globals w (snd (for_of paths (fun a => mkdir a blocked) w)).
Proof.
  revert w. induction paths as [|a rest IH]; intros w; [apply same_globals_refl |].
  change (for_of (a :: rest) (fun a => mkdir a blocked) w)
    with (bind (mkdir a blocked) (fun _ => for_of rest (fun a => mkdir a blocked)) w).
  unfold bind. pose proof (mkdir_globals a blocked w) as Ha.
  destruct (mkdir a blocked w) as [[[]|e] w1]; simpl in *; [| exact Ha].
  eapply same_globals_trans; [exact Ha | apply IH].
Qed.

Lemma mkdir_missing_ok (path : string) (blocked : string -> error) (w w0 : World) :
  mkdir_missing path blocked w = (Ok tt, w0) -> fs w0 !! path = Some ∅.
Proof.
  unfold mkdir_missing.
  destruct (has_char NUL path); [done |].
  destruct (_ || _); [done |].
  destruct (fs w !! dirname path) as [parent|].
  - destruct (parent !! basename path) as [[c|sz]|]; [done | |];
      intros [= <-]; apply lookup_insert_eq.
  - intros [= <-]. apply lookup_insert_eq.
Qed.

(** When [mkdir_recursive] succeeds the directory exists, with the entries
    it had before (none when it was created), and nothing but the file
    system changed. *)
Lemma mkdir_recursive_ok (dir : string) (w w0 : World) :
  mkdir_recursive dir w = (Ok tt, w0) ->
  same_globals w w0 /\
  exists d0, fs w0 !! dir = Some d0 /\ forall name, d0 !! name = lookup_node dir name w.
Proof.
  unfold mkdir_recursive, lookup_node.
  destruct (fs w !! dir) as [d|] eqn:Hd.
  - intros [= <-]. split; [apply same_globals_refl |]. by exists d.
  - unfold bind.
    pose proof (mkdir_loop_globals (ancestors dir) ENOTDIR w) as Hg1.
    destruct (for_of (ancestors dir) (fun a => mkdir a ENOTDIR) w) as [[[]|e] w1];
      [| done].
    simpl in Hg1. intros Hm.
    pose proof (mkdir_missing_globals dir EEXIST w1) as Hg2. rewrite Hm in Hg2.
    split; [by eapply same_globals_trans |].
    exists ∅. split; [by eapply mkdir_missing_ok |]. intros name. apply lookup_empty.
Qed.

(** A directory that exists is left alone. *)
Lemma mkdir_recursive_present (dir : string) (w : World) :
  is_Some (fs w !! dir) -> mkdir_recursive dir w = (Ok tt, w).
Proof. intros [d Hd]. unfold mkdir_recursive. by rewrite Hd. Qed.

(** [set] succeeds when the cache directory exists or can be created, the
    platform accepts the key as a file name and no directory has that name;
    it then leaves exactly the serialised document under the key and touches
    no other entry. *)
Lemma set_ok (prefix : option string) (name : string) (payload : jsvalue)
    (ttl : option Z) (w : World) :
  let key := formatFileName prefix name in
  let data := document (Object payload) (default (defaultTTL this) ttl) (now w) in
  fst (mkdir_recursive (basePath this) w) = Ok tt ->
  create_error (basePath this) key = None ->
  (forall sz, lookup_node (basePath this) key w <> Some (Dir sz)) ->
  exists w1,
    set JSON_stringify this prefix name payload ttl w =
      (Ok (path_resolve (basePath this) key), w1) /\
    lookup_node (basePath this) key w1 = Some (File (JSON_stringify data)) /\
    (forall other, other <> key ->
       lookup_node (basePath this) other w1 = lookup_node (basePath this) other w) /\
    same_globals w w1 /\
    (is_Some (fs w !! basePath this) ->
     forall dir, dir <> basePath this -> fs w1 !! dir = fs w !! dir).
Proof.
  intros key data Hmk Hname Hnd.
  destruct (mkdir_recursive (basePath this) w) as [[[]|e] w0] eqn:Hm; [| done].
  destruct (mkdir_recursive_ok _ _ _ Hm) as (Hg & d0 & Hd0 & Hsame).
  assert (Hnow : now w0 = now w) by apply Hg.
  set (content := JSON_stringify data).
  set (w1 := with_fs (<[basePath this := <[key := File content]> d0]> (fs w0)) w0).
  assert (Hwrite : writeFile (basePath this) key content w0 = (Ok tt, w1)).
  { unfold writeFile. rewrite Hd0, Hsame.
    destruct (lookup_node (basePath this) key w) as [[c|sz]|] eqn:Hk.
    - reflexivity.
    - by destruct (Hnd sz).
    - by rewrite Hname. }
  exists w1. split; [| split; [| split; [| split]]].
  - unfold set. rewrite formatFileName_default. fold key.
    apply try_catch_ok.
    erewrite bind_ok; [| exact Hm].
    erewrite bind_ok; [| reflexivity].
    rewrite Hnow. fold data. fold content.
    erewrite bind_ok; [| exact Hwrite].
    reflexivity.
  - unfold w1. rewrite lookup_node_with_fs, lookup_insert_eq. simpl.
    by rewrite lookup_insert_eq.
  - intros other Hne. unfold w1. rewrite lookup_node_with_fs, lookup_insert_eq. simpl.
    rewrite lookup_insert_ne by done. apply Hsame.
  - eapply same_globals_trans; [exact Hg |]. by repeat split.
  - intros Hex dir Hne. rewrite (mkdir_recursive_present _ _ Hex) in Hm.
    injection Hm as <-. unfold w1. simpl. by rewrite lookup_insert_ne.
Qed.

(** [get] on a regular file that parses returns [data.payload] and changes
    nothing; the clock is not consulted. *)
Lemma get_file (prefix : option string) (name content : string) (data : json)
    (w : World) :
  lookup_node (basePath this) (formatFileName prefix name) w = Some (File content) ->
  JSON_parse content = Some data ->
  get JSON_parse this prefix name w = (getprop data "payload", w).
Proof.
  intros Hk Hp.
  unfold get, try_catch, bind, stat, readFile, parse, of_outcome, throw.
  rewrite formatFileName_default, Hk. simpl. rewrite Hk, Hp. simpl.
  by destruct (getprop data "payload").
Qed.

(** ** [validateFile] reads one entry and the clock, and changes nothing *)

Lemma validateFile_total (file : string) (w : World) :
  exists v, validateFile JSON_parse ToNumber_other this file w = (Ok v, w).
Proof.
  unfold validateFile, try_catch, bind, stat, readFile, parse, of_outcome,
    Date_now, ret, throw.
  repeat (case_match; simpl in *; simplify_eq; eauto).
Qed.

Lemma validateFile_frame (file : string) (w1 w2 : World) :
  lookup_node (basePath this) file w1 = lookup_node (basePath this) file w2 ->
  now w1 = now w2 ->
  fst (validateFile JSON_parse ToNumber_other this file w1) =
  fst (validateFile JSON_parse ToNumber_other this file w2).
Proof.
  intros H1 H2.
  unfold validateFile, try_catch, bind, stat, readFile, parse, of_outcome,
    Date_now, ret, throw.
  rewrite H1.
  destruct (lookup_node (basePath this) file w2) as [[c|sz]|] eqn:E; simpl;
    [| done | done].
  rewrite H1, E. unfold parse.
  destruct (JSON_parse c) as [data|]; simpl; [| done].
  destruct (getprop data "expiration") as [expiration|]; simpl; [| done].
  destruct (getprop data "ttl") as [data_ttl|]; simpl.
  - destruct (truthy expiration); simpl.
    + destruct (ToNumber ToNumber_other expiration); simpl; [| done].
      rewrite H2. by destruct (ToNumber ToNumber_other data_ttl).
    + by destruct (ToNumber ToNumber_other data_ttl).
  - destruct (truthy expiration); simpl; [| done].
    by destruct (ToNumber ToNumber_other expiration).
Qed.

Lemma invalid_frame (file : string) (w1 w2 : World) :
  lookup_node (basePath this) file w1 = lookup_node (basePath this) file w2 ->
  now w1 = now w2 ->
  invalid JSON_parse ToNumber_other this file w1 =
  invalid JSON_parse ToNumber_other this file w2.
Proof. intros H1 H2. unfold invalid. by rewrite (validateFile_frame _ _ _ H1 H2). Qed.

Lemma after_sweep_frame (name : string) (w1 w2 : World) :
  lookup_node (basePath this) name w1 = lookup_node (basePath this) name w2 ->
  now w1 = now w2 ->
  after_sweep JSON_parse ToNumber_other this w1 name =
  after_sweep JSON_parse ToNumber_other this w2 name.
Proof.
  intros H1 H2. unfold after_sweep. by rewrite H1, (invalid_frame _ _ _ H1 H2).
Qed.

(** ** The sweep *)

(** One iteration over an entry that is present: it never throws, and it
    unlinks the entry exactly when it is a regular file found invalid. *)
Lemma invalidate_file_step (file : string) (l : sweep_locals) (w : World)
    (d : gmap string node) (n : node) :
  fs w !! basePath this = Some d ->
  d !! file = Some n ->
  exists l',
    invalidate_file JSON_parse ToNumber_other this file (l, w) =
      (Ok tt,
       (l', with_fs (<[basePath this :=
                        if is_File n && invalid JSON_parse ToNumber_other this file w
                        then delete file d else d]> (fs w)) w)).
Proof.
  intros Hd Hn.
  assert (Hl : lookup_node (basePath this) file w = Some n).
  { unfold lookup_node. rewrite Hd. exact Hn. }
  assert (Hsame : with_fs (<[basePath this := d]> (fs w)) w = w).
  { rewrite insert_id by done. apply with_fs_id. }
  unfold invalid.
  destruct (validateFile_total file w) as [v Hv].
  unfold invalidate_file, bind, try_catch, lift, locally, stat, unlinkSync, ret.
  simpl. rewrite Hl. simpl. rewrite Hv. simpl.
  destruct (Qle_bool _ 0) eqn:Hinv; simpl.
  - rewrite Hd, Hn. destruct n as [c|sz]; simpl.
    + eexists. reflexivity.
    + rewrite Hsame. eexists. reflexivity.
  - rewrite andb_false_r, Hsame. eexists. reflexivity.
Qed.

(** The loop over a duplicate-free list of present entries runs to its end
    and leaves of each listed entry what [after_sweep] says. *)
Lemma sweep_loop (files : list string) :
  forall (l : sweep_locals) (w : World) (d : gmap string node),
    fs w !! basePath this = Some d ->
    NoDup files ->
    (forall f, f ∈ files -> is_Some (d !! f)) ->
    exists l' d',
      for_of files (invalidate_file JSON_parse ToNumber_other this) (l, w) =
        (Ok tt, (l', with_fs (<[basePath this := d']> (fs w)) w)) /\
      forall name,
        d' !! name =
          if decide (name ∈ files)
          then after_sweep JSON_parse ToNumber_other this w name
          else d !! name.
Proof.
  induction files as [|f rest IH]; intros l w d Hd Hnd Hin.
  - exists l, d. split.
    + simpl. unfold ret. rewrite insert_id by done. by rewrite with_fs_id.
    + intros name. case_decide as Hm; [by apply elem_of_nil in Hm | done].
  - apply NoDup_cons in Hnd as [Hf Hnd].
    destruct (Hin f) as [n Hn]; [by left |].
    destruct (invalidate_file_step f l w d n Hd Hn) as [l1 Hstep].
    set (d1 := if is_File n && invalid JSON_parse ToNumber_other this f w
               then delete f d else d) in Hstep.
    set (w1 := with_fs (<[basePath this := d1]> (fs w)) w) in Hstep.
    assert (Hd1 : fs w1 !! basePath this = Some d1) by apply lookup_insert_eq.
    assert (Hother : forall g, g <> f -> d1 !! g = d !! g).
    { intros g Hg. unfold d1. case_match; [by rewrite lookup_delete_ne | done]. }
    destruct (IH l1 w1 d1 Hd1 Hnd) as (l' & d' & Hloop & Hd').
    { intros g Hg. rewrite Hother; [apply Hin; by right | by intros ->]. }
    exists l', d'. split.
    + change (for_of (f :: rest) (invalidate_file JSON_parse ToNumber_other this) (l, w))
        with (bind (invalidate_file JSON_parse ToNumber_other this f)
                (fun _ => for_of rest (invalidate_file JSON_parse ToNumber_other this))
                (l, w)).
      unfold bind at 1. rewrite Hstep, Hloop. unfold w1. simpl.
      by rewrite insert_insert_eq.
    + intros name. rewrite Hd'.
      destruct (decide (name = f)) as [-> | Hne].
      * rewrite decide_False by done. rewrite decide_True by (by left).
        unfold after_sweep, lookup_node. rewrite Hd. simpl. rewrite Hn.
        unfold d1. destruct n as [c|sz]; simpl.
        -- destruct (invalid _ _ _ f w); [apply lookup_delete_eq | done].
        -- done.
      * case_decide as Hm.
        -- rewrite decide_True by (by right).
           apply after_sweep_frame; [| done].
           unfold lookup_node. rewrite Hd1, Hd. simpl. by apply Hother.
        -- rewrite decide_False; [by apply Hother |].
           intros [? | ?]%elem_of_cons; done.
Qed.

(** A sweep of an existing directory: every entry is visited, the counter is
    incremented and one snapshot is appended. *)
Lemma invalidate_present (w : World) (d : gmap string node) :
  fs w !! basePath this = Some d ->
  exists r w',
    invalidate JSON_parse ToNumber_other this w = (Ok r, w') /\
    (forall name,
       lookup_node (basePath this) name w' =
       after_sweep JSON_parse ToNumber_other this w name) /\
    GLOBAL_ENDPOINT_INVALIDATE_REQUEST_COUNT w' =
      GLOBAL_ENDPOINT_INVALIDATE_REQUEST_COUNT w + 1 /\
    r_endpointInvalidateRequestCount r =
      GLOBAL_ENDPOINT_INVALIDATE_REQUEST_COUNT w + 1 /\
    (exists snapshot,
       GLOBAL_LOGS_OVER_TIME w' = (GLOBAL_LOGS_OVER_TIME w ++ [snapshot])%list) /\
    GLOBAL_ENDPOINT_DELETE_REQUEST_COUNT w' = GLOBAL_ENDPOINT_DELETE_REQUEST_COUNT w /\
    GLOBAL_ENDPOINT_DELETE_BY_REGEX_REQUEST_COUNT w' =
      GLOBAL_ENDPOINT_DELETE_BY_REGEX_REQUEST_COUNT w /\
    now w' = now w /\ console w' = console w.
Proof.
  intros Hd.
  set (w0 := snd (incr_invalidate w)).
  assert (Hd0 : fs w0 !! basePath this = Some d) by exact Hd.
  destruct (sweep_loop (scandir d)
              {| logs := []; filesInvalidated := 0; totalSize := 0 |} w0 d Hd0)
    as (l' & d' & Hloop & Hd').
  { apply scandir_NoDup. }
  { intros f Hf. by apply listing_elem. }
  unfold invalidate.
  match goal with
  | |- context [try_catch ?m ?h ?s] =>
      assert (Hrun : try_catch m h s =
                     (Ok tt, (l', with_fs (<[basePath this := d']> (fs w0)) w0)))
  end.
  { apply try_catch_ok.
    erewrite bind_ok; [| by apply lift_eq, readdirSync_ok].
    erewrite bind_ok; [| by apply lift_eq]. exact Hloop. }
  rewrite Hrun.
  eexists _, _. split; [reflexivity |].
  split; [| by repeat split; simpl; eauto].
  intros name. unfold lookup_node at 1. simpl.
  rewrite lookup_insert_eq. simpl. rewrite Hd'.
  rewrite (after_sweep_frame name w w0) by done.
  case_decide as Hm; [done |].
  unfold after_sweep, lookup_node. rewrite Hd0. simpl.
  destruct (d !! name) as [n|] eqn:Hn; [| done].
  exfalso. apply Hm. apply listing_elem. by exists n.
Qed.

(** A sweep of a missing directory: [readdirSync] throws before the counter
    is touched; the snapshot is appended all the same. *)
Lemma invalidate_missing (w : World) :
  fs w !! basePath this = None ->
  invalidate JSON_parse ToNumber_other this w =
    (Ok {| r_endpointInvalidateRequestCount := GLOBAL_ENDPOINT_INVALIDATE_REQUEST_COUNT w;
           r_filesInvalidated := 0;
           r_bytes := 0;
           r_logs := [];
           r_logsOverTime :=
             GLOBAL_LOGS_OVER_TIME w ++
             [ {| id := now w; bytes := 0;
                  endpointInvalidateRequestCount :=
                    GLOBAL_ENDPOINT_INVALIDATE_REQUEST_COUNT w;
                  endpointDeleteRequestCount := GLOBAL_ENDPOINT_DELETE_REQUEST_COUNT w;
                  endpointDeleteByRegexRequestCount :=
                    GLOBAL_ENDPOINT_DELETE_BY_REGEX_REQUEST_COUNT w |} ] |},
     push_snapshot 0 w).
Proof.
  intros Hd. unfold invalidate.
  erewrite try_catch_throw;
    [| erewrite bind_throw; [reflexivity | by apply lift_eq, readdirSync_missing]].
  reflexivity.
Qed.

(** *** When the sweep finds an entry invalid *)

Lemma Qle_bool_div1000 (e t : Z) :
  Qle_bool ((inject_Z e - inject_Z t) / 1000) 0 = (e <=? t).
Proof.
  unfold Qle_bool, Qdiv, Qmult, Qminus, Qplus, Qopp, Qinv, inject_Z. simpl.
  destruct (Z.leb_spec e t); [apply Z.leb_le | apply Z.leb_gt]; lia.
Qed.

(** Content that does not parse: [validateFile] swallows the SyntaxError and
    yields [undefined], which the sweep reads as [expiresIn = 0]. *)
Lemma invalid_corrupt (file content : string) (w : World) :
  lookup_node (basePath this) file w = Some (File content) ->
  JSON_parse content = None ->
  validateFile JSON_parse ToNumber_other this file w = (Ok None, w) /\
  invalid JSON_parse ToNumber_other this file w = true.
Proof.
  intros Hl Hp.
  assert (Hv : validateFile JSON_parse ToNumber_other this file w = (Ok None, w)).
  { unfold validateFile, try_catch, bind, stat, readFile, parse, throw, ret.
    rewrite Hl. simpl. rewrite Hl, Hp. reflexivity. }
  split; [exact Hv |]. unfold invalid. rewrite Hv. reflexivity.
Qed.

(** An entry whose [expiration] is falsy, [null] in particular: [expiresIn]
    is [null], and [(null || 0) <= 0] holds. *)
Lemma invalid_no_expiration (file content : string)
    (props : list (string * json)) (w : World) :
  lookup_node (basePath this) file w = Some (File content) ->
  JSON_parse content = Some (JObj props) ->
  truthy (assoc "expiration" props) = false ->
  invalid JSON_parse ToNumber_other this file w = true.
Proof.
  intros Hl Hp He.
  unfold invalid, validateFile, try_catch, bind, stat, readFile, parse,
    of_outcome, throw, ret.
  rewrite Hl. simpl. rewrite Hl, Hp. simpl. rewrite He. simpl.
  by destruct (ToNumber ToNumber_other (assoc "ttl" props)).
Qed.

(** An entry whose expiration time is reached. *)
Lemma invalid_expired (file content : string) (props : list (string * json))
    (e : Z) (w : World) :
  lookup_node (basePath this) file w = Some (File content) ->
  JSON_parse content = Some (JObj props) ->
  assoc "expiration" props = Val (JNum e) ->
  e <= now w ->
  invalid JSON_parse ToNumber_other this file w = true.
Proof.
  intros Hl Hp He Ht.
  unfold invalid, validateFile, try_catch, bind, stat, readFile, parse,
    of_outcome, throw, ret, Date_now.
  rewrite Hl. simpl. rewrite Hl, Hp. simpl. rewrite He. simpl.
  destruct (e =? 0) eqn:E0; simpl.
  - by destruct (ToNumber ToNumber_other (assoc "ttl" props)).
  - destruct (ToNumber ToNumber_other (assoc "ttl" props)); simpl; [| done].
    rewrite Qle_bool_div1000.
    assert ((e <=? now w) = true) as -> by by apply Z.leb_le.
    reflexivity.
Qed.

(** An entry with a numeric TTL whose expiration time lies ahead. *)
Lemma invalid_live (file content : string) (props : list (string * json))
    (e ttl_ms : Z) (w : World) :
  lookup_node (basePath this) file w = Some (File content) ->
  JSON_parse content = Some (JObj props) ->
  assoc "expiration" props = Val (JNum e) ->
  assoc "ttl" props = Val (JNum ttl_ms) ->
  e <> 0 ->
  now w < e ->
  invalid JSON_parse ToNumber_other this file w = false.
Proof.
  intros Hl Hp He Httl H0 Ht.
  unfold invalid, validateFile, try_catch, bind, stat, readFile, parse,
    of_outcome, throw, ret, Date_now.
  rewrite Hl. simpl. rewrite Hl, Hp. simpl. rewrite He, Httl. simpl.
  assert ((e =? 0) = false) as -> by by apply Z.eqb_neq.
  simpl. rewrite Qle_bool_div1000.
  assert ((e <=? now w) = false) as -> by (apply Z.leb_gt; lia).
  unfold or_zero.
  destruct (Qeq_bool _ 0) eqn:Eq.
  - apply Qeq_bool_iff in Eq. exfalso.
    assert (Hle : Qle_bool ((inject_Z e - inject_Z (now w)) / 1000) 0 = true).
    { apply Qle_bool_iff. rewrite Eq. apply Qle_refl. }
    rewrite Qle_bool_div1000 in Hle. apply Z.leb_le in Hle. lia.
  - rewrite Qle_bool_div1000. apply Z.leb_gt. lia.
Qed.

(** The sweep unlinks every regular file whose [expiration] field is
    [null], whatever the time. *)
Lemma sweep_deletes_null_expiration (w : World) (d : gmap string node)
    (name content : string) (props : list (string * json)) :
  fs w !! basePath this = Some d ->
  d !! name = Some (File content) ->
  JSON_parse content = Some (JObj props) ->
  assoc "expiration" props = Val JNull ->
  lookup_node (basePath this) name
    (snd (invalidate JSON_parse ToNumber_other this w)) = None.
Proof.
  intros Hd Hn Hp He.
  destruct (invalidate_present w d Hd) as (r & w' & Hrun & Hfs & _).
  rewrite Hrun. simpl. rewrite Hfs.
  assert (Hl : lookup_node (basePath this) name w = Some (File content)).
  { unfold lookup_node. by rewrite Hd. }
  unfold after_sweep. rewrite Hl.
  rewrite (invalid_no_expiration name content props w Hl Hp); [done |].
  by rewrite He.
Qed.

(** C2, as the code has it -- a failure inside [validateFile] (the file
    cannot be inspected or its content is not valid JSON) is swallowed and
    the sweep never throws; the entry is then treated as expired, so a
    regular file is deleted; and the sweep goes on over the whole listing:
    every entry ends as [after_sweep] says, whichever entries failed. *)
Theorem sweep_treats_failure_as_expired (w : World) (d : gmap string node) :
  fs w !! basePath this = Some d ->
  exists r w',
    invalidate JSON_parse ToNumber_other this w = (Ok r, w') /\
    (forall name content,
       d !! name = Some (File content) ->
       JSON_parse content = None ->
       validateFile JSON_parse ToNumber_other this name w = (Ok None, w) /\
       lookup_node (basePath this) name w' = None) /\
    (forall name,
       lookup_node (basePath this) name w' =
       after_sweep JSON_parse ToNumber_other this w name).
Proof.
  intros Hd.
  destruct (invalidate_present w d Hd) as (r & w' & Hrun & Hfs & _).
  exists r, w'. split; [exact Hrun |]. split; [| exact Hfs].
  intros name content Hn Hp.
  assert (Hl : lookup_node (basePath this) name w = Some (File content)).
  { unfold lookup_node. by rewrite Hd. }
  destruct (invalid_corrupt name content w Hl Hp) as [Hv Hinv].
  split; [exact Hv |].
  rewrite Hfs. unfold after_sweep. by rewrite Hl, Hinv.
Qed.

(** C5, where the code departs from it -- when the directory cannot be
    listed the sweep appends its snapshot but leaves the sweep counter as it
    was. *)
Theorem invalidate_missing_directory_keeps_counter (w : World) :
  fs w !! basePath this = None ->
  let w' := snd (invalidate JSON_parse ToNumber_other this w) in
  GLOBAL_ENDPOINT_INVALIDATE_REQUEST_COUNT w' =
    GLOBAL_ENDPOINT_INVALIDATE_REQUEST_COUNT w /\
  length (GLOBAL_LOGS_OVER_TIME w') = S (length (GLOBAL_LOGS_OVER_TIME w)).
Proof.
  intros Hd. rewrite (invalidate_missing w Hd). simpl.
  split; [done |]. rewrite length_app. simpl. lia.
Qed.

(** Every sweep appends exactly one snapshot, the earlier ones untouched,
    and no counter decreases. *)
Lemma invalidate_appends_one_snapshot (w : World) :
  let w' := snd (invalidate JSON_parse ToNumber_other this w) in
  (exists snapshot,
     GLOBAL_LOGS_OVER_TIME w' = (GLOBAL_LOGS_OVER_TIME w ++ [snapshot])%list) /\
  GLOBAL_ENDPOINT_INVALIDATE_REQUEST_COUNT w <=
    GLOBAL_ENDPOINT_INVALIDATE_REQUEST_COUNT w' /\
  GLOBAL_ENDPOINT_DELETE_REQUEST_COUNT w' = GLOBAL_ENDPOINT_DELETE_REQUEST_COUNT w /\
  GLOBAL_ENDPOINT_DELETE_BY_REGEX_REQUEST_COUNT w' =
    GLOBAL_ENDPOINT_DELETE_BY_REGEX_REQUEST_COUNT w.
Proof.
  destruct (fs w !! basePath this) as [d|] eqn:Hd.
  - destruct (invalidate_present w d Hd)
      as (r & w' & Hrun & _ & Hc & _ & Hlog & Hc1 & Hc2 & _).
    rewrite Hrun. simpl. repeat split; [done | lia | done | done].
  - rewrite (invalidate_missing w Hd). simpl. repeat split; [by eexists | lia].
Qed.

(** When the directory can be listed the sweep counter grows by one. *)
Lemma invalidate_counts_listed_sweep (w : World) (d : gmap string node) :
  fs w !! basePath this = Some d ->
  GLOBAL_ENDPOINT_INVALIDATE_REQUEST_COUNT
    (snd (invalidate JSON_parse ToNumber_other this w)) =
  GLOBAL_ENDPOINT_INVALIDATE_REQUEST_COUNT w + 1.
Proof.
  intros Hd.
  destruct (invalidate_present w d Hd) as (r & w' & Hrun & _ & Hc & _).
  by rewrite Hrun.
Qed.

(** C8 -- [get] does not look at the TTL fields or the clock: whenever the
    backing file exists and parses to an entry, it returns the stored payload
    at any time, also when the entry's expiration time has passed and the
    sweep would find it invalid. *)
Theorem get_ignores_expiration (prefix : option string) (name content : string)
    (props : list (string * json)) (w : World) :
  lookup_node (basePath this) (formatFileName prefix name) w = Some (File content) ->
  JSON_parse content = Some (JObj props) ->
  forall t,
    get JSON_parse this prefix name (at_time t w) =
      (Ok (assoc "payload" props), at_time t w) /\
    (forall e,
       assoc "expiration" props = Val (JNum e) -> e <= t ->
       invalid JSON_parse ToNumber_other this (formatFileName prefix name)
         (at_time t w) = true).
Proof.
  intros Hl Hp t. split.
  - by rewrite (get_file prefix name content (JObj props) (at_time t w)).
  - intros e He Ht. by apply (invalid_expired _ content props e).
Qed.

(** ** Writing and reading back *)

(** What [get] returns right after [set]: the payload as [Object] left it,
    provided the platform parses the written document back. *)
Lemma set_then_get (prefix : option string) (name : string) (payload : jsvalue)
    (ttl : option Z) (w : World) :
  let key := formatFileName prefix name in
  let data := document (Object payload) (default (defaultTTL this) ttl) (now w) in
  fst (mkdir_recursive (basePath this) w) = Ok tt ->
  create_error (basePath this) key = None ->
  (forall sz, lookup_node (basePath this) key w <> Some (Dir sz)) ->
  JSON_parse (JSON_stringify data) = Some data ->
  exists w1,
    set JSON_stringify this prefix name payload ttl w =
      (Ok (path_resolve (basePath this) key), w1) /\
    lookup_node (basePath this) key w1 = Some (File (JSON_stringify data)) /\
    forall t,
      get JSON_parse this prefix name (at_time t w1) =
        (Ok (Val (Object payload)), at_time t w1).
Proof.
  intros key data Hmk Hname Hnd Hcodec.
  destruct (set_ok prefix name payload ttl w Hmk Hname Hnd) as (w1 & Hset & Hl & _).
  exists w1. split; [exact Hset |]. split; [exact Hl |].
  intros t.
  by rewrite (get_file prefix name (JSON_stringify data) data (at_time t w1) Hl Hcodec).
Qed.


(** C10 -- [set] stores [Object(payload)]: a [null] or [undefined] payload
    is persisted as the empty object, which is what a following [get]
    returns, while an object or array payload is persisted and read back as
    it is.  The key is one the platform accepts as a file name, the cache
    directory exists or can be created, no directory has the key's name, and
    the platform parses the written document back. *)
Theorem set_stores_Object_of_payload (prefix : option string) (name : string)
    (payload : jsvalue) (ttl : option Z) (w : World) :
  let key := formatFileName prefix name in
  let stored :=
    match payload with
    | Undefined => JObj []
    | Val JNull => JObj []
    | Val (JObj props) => JObj props
    | Val (JArr items) => JArr items
    | Val primitive => primitive
    end in
  let data := document stored (default (defaultTTL this) ttl) (now w) in
  fst (mkdir_recursive (basePath this) w) = Ok tt ->
  create_error (basePath this) key = None ->
  (forall sz, lookup_node (basePath this) key w <> Some (Dir sz)) ->
  JSON_parse (JSON_stringify data) = Some data ->
  exists path w1,
    set JSON_stringify this prefix name payload ttl w = (Ok path, w1) /\
    lookup_node (basePath this) key w1 = Some (File (JSON_stringify data)) /\
    get JSON_parse this prefix name w1 = (Ok (Val stored), w1) /\
    (payload = Undefined \/ payload = Val JNull ->
     stored = JObj [] /\ Val stored <> payload).
Proof.
  intros key stored data Hmk Hname Hnd Hcodec.
  assert (HO : Object payload = stored) by by destruct payload as [|[]].
  destruct (set_then_get prefix name payload ttl w) as (w1 & Hset & Hl & Hget).
  { exact Hmk. }
  { exact Hname. }
  { exact Hnd. }
  { rewrite HO. exact Hcodec. }
  exists (path_resolve (basePath this) key), w1.
  split; [exact Hset |]. split; [unfold data; rewrite <- HO; exact Hl |]. split.
  - specialize (Hget (now w1)). rewrite HO in Hget.
    replace (at_time (now w1) w1) with w1 in Hget by by destruct w1.
    exact Hget.
  - unfold stored. by intros [-> | ->].
Qed.

(** ** The flushes *)

Lemma for_of_app {S A} (xs ys : list A) (body : A -> M S unit) (s : S) :
  for_of (xs ++ ys) body s = bind (for_of xs body) (fun _ => for_of ys body) s.
Proof.
  revert s. induction xs as [|x xs IH]; intros s; [reflexivity |].
  change (for_of ((x :: xs) ++ ys) body s)
    with (bind (body x) (fun _ => for_of (xs ++ ys) body) s).
  change (for_of (x :: xs) body)
    with (bind (body x) (fun _ => for_of xs body)).
  unfold bind. destruct (body x s) as [[[]|e] s']; [| done].
  rewrite IH. reflexivity.
Qed.

Lemma unlinkSync_file (name content : string) (w : World) (d : gmap string node) :
  fs w !! basePath this = Some d ->
  d !! name = Some (File content) ->
  unlinkSync (basePath this) name w =
    (Ok tt, with_fs (<[basePath this := delete name d]> (fs w)) w).
Proof. intros Hd Hn. unfold unlinkSync. by rewrite Hd, Hn. Qed.

Lemma unlinkSync_dir (name : string) (sz : Z) (w : World) (d : gmap string node) :
  fs w !! basePath this = Some d ->
  d !! name = Some (Dir sz) ->
  unlinkSync (basePath this) name w =
    (Throw (EISDIR (path_join (basePath this) name)), w).
Proof. intros Hd Hn. unfold unlinkSync. by rewrite Hd, Hn. Qed.

(** Unlinking a duplicate-free list of regular files removes exactly them. *)
Lemma unlink_loop_ok (files : list string) :
  forall (w : World) (d : gmap string node),
    fs w !! basePath this = Some d ->
    NoDup files ->
    (forall f, f ∈ files -> exists c, d !! f = Some (File c)) ->
    exists d',
      for_of files (fun file => unlinkSync (basePath this) file) w =
        (Ok tt, with_fs (<[basePath this := d']> (fs w)) w) /\
      forall name, d' !! name = if decide (name ∈ files) then None else d !! name.
Proof.
  induction files as [|f rest IH]; intros w d Hd Hnd Hin.
  - exists d. split.
    + simpl. unfold ret. rewrite insert_id by done. by rewrite with_fs_id.
    + intros name. case_decide as Hm; [by apply elem_of_nil in Hm | done].
  - apply NoDup_cons in Hnd as [Hf Hnd].
    destruct (Hin f) as [c Hc]; [by left |].
    set (w1 := with_fs (<[basePath this := delete f d]> (fs w)) w).
    destruct (IH w1 (delete f d)) as (d' & Hloop & Hd'); [apply lookup_insert_eq | done | |].
    { intros g Hg. destruct (Hin g) as [c' Hc']; [by right |].
      exists c'. rewrite lookup_delete_ne; [done | by intros ->]. }
    exists d'. split.
    + simpl. erewrite bind_ok; [| by apply (unlinkSync_file f c w d)].
      fold w1. rewrite Hloop. unfold w1. simpl. by rewrite insert_insert_eq.
    + intros name. rewrite Hd'.
      destruct (decide (name = f)) as [-> | Hne].
      * rewrite decide_False by done. rewrite decide_True by (by left).
        apply lookup_delete_eq.
      * case_decide as Hm.
        -- by rewrite decide_True by (by right).
        -- rewrite decide_False; [by rewrite lookup_delete_ne |].
           intros [? | ?]%elem_of_cons; done.
Qed.

(** [flushAll] and [flushByRegex] catch whatever is thrown inside them. *)
Lemma flushAll_never_throws (w : World) :
  exists r w', flushAll this w = (Ok r, w').
Proof.
  unfold flushAll, try_catch.
  match goal with |- context [match ?m with _ => _ end] => destruct m as [[r|e] w'] end;
    eauto.
Qed.

(** C3, as the code has it -- when a deletion fails while [flushAll]
    iterates (the entry is a directory), the iteration stops there: the
    entries listed before it, in the order of [readdirSync] (sorted by
    name), are gone and those listed after it stay; the failure is caught,
    logged to the console, and the call returns [undefined] instead of
    throwing; the flush counter stays incremented. *)
Theorem flushAll_catches_failed_deletion (w : World) (d : gmap string node)
    (before after : list string) (name : string) (sz : Z) :
  fs w !! basePath this = Some d ->
  scandir d = (before ++ name :: after)%list ->
  (forall f, f ∈ before -> exists c, d !! f = Some (File c)) ->
  d !! name = Some (Dir sz) ->
  exists w',
    flushAll this w = (Ok None, w') /\
    (forall f, f ∈ before -> lookup_node (basePath this) f w' = None) /\
    (forall f, f ∈ name :: after -> lookup_node (basePath this) f w' = d !! f) /\
    console w' =
      (console w ++
       [("Error reading cache folder:", EISDIR (path_join (basePath this) name))])%list /\
    GLOBAL_ENDPOINT_DELETE_REQUEST_COUNT w' = GLOBAL_ENDPOINT_DELETE_REQUEST_COUNT w + 1.
Proof.
  intros Hd Hlist Hfiles Hdir.
  pose proof (scandir_NoDup d) as Hnd. rewrite Hlist in Hnd.
  apply NoDup_app in Hnd as (Hnd1 & Hdisj & Hnd2).
  set (w0 := snd (incr_delete w)).
  destruct (unlink_loop_ok before w0 d Hd Hnd1 Hfiles) as (d' & Hloop & Hd').
  set (w1 := with_fs (<[basePath this := d']> (fs w0)) w0) in Hloop.
  assert (Hd1 : fs w1 !! basePath this = Some d') by apply lookup_insert_eq.
  assert (Hn1 : d' !! name = Some (Dir sz)).
  { rewrite Hd'. rewrite decide_False; [done |].
    intros Hm. apply (Hdisj name Hm). by left. }
  assert (Hrun : for_of (scandir d)
                   (fun file => unlinkSync (basePath this) file) w0 =
                 (Throw (EISDIR (path_join (basePath this) name)), w1)).
  { rewrite Hlist, for_of_app. erewrite bind_ok; [| exact Hloop].
    simpl. erewrite bind_throw; [reflexivity |].
    by apply (unlinkSync_dir name sz w1 d'). }
  eexists. split.
  - unfold flushAll. erewrite try_catch_throw.
    + unfold bind, console_error, ret. reflexivity.
    + erewrite bind_ok; [| reflexivity].
      erewrite bind_ok; [| by apply readdirSync_ok].
      erewrite bind_throw; [reflexivity |]. exact Hrun.
  - split; [| split; [| split]]; simpl.
    + intros f Hf. unfold lookup_node. simpl. rewrite lookup_insert_eq. simpl.
      rewrite Hd'. by rewrite decide_True.
    + intros f Hf. unfold lookup_node. simpl. rewrite lookup_insert_eq. simpl.
      rewrite Hd'. rewrite decide_False; [done |].
      intros Hm. by apply (Hdisj f Hm).
    + done.
    + done.
Qed.

Lemma String_match_ok (subject pattern : string) (test : string -> bool) (w : World) :
  RegExp pattern = Some test ->
  String_match RegExp subject pattern w = (Ok (test subject), w).
Proof. intros H. unfold String_match. by rewrite H. Qed.

(** The loop of [flushByRegex] over a duplicate-free list of present
    entries, when both patterns are well formed and every matching entry can
    be unlinked. *)
Lemma flushByRegex_loop_ok (org regex : string) (m1 m2 : string -> bool)
    (files : list string) :
  RegExp org = Some m1 ->
  RegExp regex = Some m2 ->
  forall (w : World) (d : gmap string node) (deleted : Z),
    fs w !! basePath this = Some d ->
    NoDup files ->
    (forall f, f ∈ files -> m1 f && m2 f = true -> exists c, d !! f = Some (File c)) ->
    exists d',
      flushByRegex_loop RegExp this org regex files deleted w =
        (Ok (deleted + Z.of_nat (length (List.filter (fun f => m1 f && m2 f) files))),
         with_fs (<[basePath this := d']> (fs w)) w) /\
      forall name,
        d' !! name =
          if decide (name ∈ files)
          then (if m1 name && m2 name then None else d !! name)
          else d !! name.
Proof.
  intros H1 H2.
  induction files as [|f rest IH]; intros w d deleted Hd Hnd Hin.
  - exists d. split.
    + simpl. unfold ret. rewrite insert_id by done. rewrite with_fs_id.
      by rewrite Z.add_0_r.
    + intros name. case_decide as Hm; [by apply elem_of_nil in Hm | done].
  - apply NoDup_cons in Hnd as [Hf Hnd].
    assert (Hstep :
      flushByRegex_loop RegExp this org regex (f :: rest) deleted w =
      if m1 f && m2 f
      then bind (unlinkSync (basePath this) f)
             (fun _ => flushByRegex_loop RegExp this org regex rest (deleted + 1)) w
      else flushByRegex_loop RegExp this org regex rest deleted w).
    { simpl. erewrite bind_ok; [| by apply String_match_ok].
      destruct (m1 f); simpl.
      - erewrite bind_ok; [| by apply String_match_ok]. by destruct (m2 f).
      - reflexivity. }
    rewrite Hstep. simpl List.filter.
    destruct (m1 f && m2 f) eqn:Hm12.
    + destruct (Hin f) as [c Hc]; [by left | done |].
      set (w1 := with_fs (<[basePath this := delete f d]> (fs w)) w).
      destruct (IH w1 (delete f d) (deleted + 1)) as (d' & Hloop & Hd');
        [apply lookup_insert_eq | done | |].
      { intros g Hg Hgm. destruct (Hin g) as [c' Hc']; [by right | done |].
        exists c'. rewrite lookup_delete_ne; [done | by intros ->]. }
      exists d'. split.
      * erewrite bind_ok; [| by apply (unlinkSync_file f c w d)].
        fold w1. rewrite Hloop. unfold w1. simpl. rewrite insert_insert_eq.
        do 2 f_equal. lia.
      * intros name. rewrite Hd'.
        destruct (decide (name = f)) as [-> | Hne].
        -- rewrite decide_False by done. rewrite decide_True by (by left).
           rewrite Hm12. apply lookup_delete_eq.
        -- case_decide as Hm.
           ++ rewrite decide_True by (by right).
              by rewrite lookup_delete_ne.
           ++ rewrite decide_False; [by rewrite lookup_delete_ne |].
              intros [? | ?]%elem_of_cons; done.
    + destruct (IH w d deleted Hd Hnd) as (d' & Hloop & Hd').
      { intros g Hg Hgm. apply Hin; [by right | done]. }
      exists d'. split; [exact Hloop |].
      intros name. rewrite Hd'.
      destruct (decide (name = f)) as [-> | Hne].
      * rewrite decide_False by done. rewrite decide_True by (by left).
        by rewrite Hm12.
      * case_decide as Hm.
        -- by rewrite decide_True by (by right).
        -- rewrite decide_False; [done |].
           intros [? | ?]%elem_of_cons; done.
Qed.

(** C6 -- [flushByRegex] (the pattern flush) deletes an entry if and only
    if its on-disk name matches both the organisation pattern and the
    secondary pattern, and returns the number of entries deleted; the
    secondary pattern defaults to the empty pattern, so that, the empty
    pattern matching every name, the organisation pattern alone decides.
    Both patterns are well formed and the matching entries are regular
    files. *)
Theorem flushByRegex_deletes_matching (org : string) (regex : option string)
    (m1 m2 : string -> bool) (w : World) (d : gmap string node) :
  fs w !! basePath this = Some d ->
  RegExp org = Some m1 ->
  RegExp (default "" regex) = Some m2 ->
  (forall name n, d !! name = Some n -> m1 name && m2 name = true -> is_File n = true) ->
  exists w',
    flushByRegex RegExp this org regex w =
      (Ok (Some {| r_requestCount :=
                     GLOBAL_ENDPOINT_DELETE_BY_REGEX_REQUEST_COUNT w + 1;
                   r_deleted :=
                     Z.of_nat (length (List.filter (fun f => m1 f && m2 f)
                                         (map_to_list d).*1)) |}), w') /\
    (forall name,
       lookup_node (basePath this) name w' =
       if m1 name && m2 name then None else d !! name) /\
    (regex = None -> RegExp "" = Some m2) /\
    ((forall s, m2 s = true) ->
     forall name,
       lookup_node (basePath this) name w' = if m1 name then None else d !! name).
Proof.
  intros Hd H1 H2 Hfiles.
  set (w0 := snd (incr_delete_by_regex w)).
  destruct (flushByRegex_loop_ok org (default "" regex) m1 m2
              (scandir d) H1 H2 w0 d 0 Hd) as (d' & Hloop & Hd').
  { apply scandir_NoDup. }
  { intros f Hf Hm. apply listing_elem in Hf as [n Hn].
    specialize (Hfiles f n Hn Hm). destruct n as [c|sz]; [by exists c | done]. }
  assert (Hlook : forall name,
            lookup_node (basePath this) name
              (with_fs (<[basePath this := d']> (fs w0)) w0) =
            if m1 name && m2 name then None else d !! name).
  { intros name. unfold lookup_node. simpl. rewrite lookup_insert_eq. simpl.
    rewrite Hd'. case_decide as Hm; [done |].
    destruct (d !! name) as [n|] eqn:Hn; [| by destruct (m1 name && m2 name)].
    exfalso. apply Hm, listing_elem. by exists n. }
  eexists. split; [| split; [exact Hlook | split]].
  - unfold flushByRegex. apply try_catch_ok.
    erewrite bind_ok; [| reflexivity].
    erewrite bind_ok; [| by apply readdirSync_ok].
    erewrite bind_ok; [| exact Hloop].
    by rewrite (filter_length_Permutation _ _ _ (scandir_Permutation d)).
  - by intros ->.
  - intros Hall name. rewrite Hlook, Hall. by rewrite andb_true_r.
Qed.

(** ** Further properties of [get] *)

(** X1 -- [get] is read-only: whatever it returns or throws, the world
    (files, counters, log, console) is left as it was. *)
Theorem get_changes_nothing (prefix : option string) (name : string) (w : World) :
  snd (get JSON_parse this prefix name w) = w.
Proof.
  unfold get, try_catch, bind, stat, readFile, parse, of_outcome, throw, ret.
  repeat (case_match; simpl in *; simplify_eq; eauto).
Qed.


(** X3 -- [get] on a regular file, by what the file holds: text that is not
    JSON throws a SyntaxError, the JSON value [null] throws a TypeError (a
    property of [null] is read), an object yields its [payload] property
    ([undefined] when it has none), and any other JSON value yields
    [undefined]. *)
Theorem get_on_regular_file (prefix : option string) (name content : string)
    (w : World) :
  lookup_node (basePath this) (formatFileName prefix name) w = Some (File content) ->
  get JSON_parse this prefix name w =
    (match JSON_parse content with
     | None => Throw SyntaxError
     | Some JNull => Throw TypeError
     | Some (JObj props) => Ok (assoc "payload" props)
     | Some _ => Ok Undefined
     end, w).
Proof.
  intros Hl.
  unfold get, try_catch, bind, stat, readFile, parse, of_outcome, throw, ret.
  rewrite formatFileName_default, Hl. simpl. rewrite Hl.
  by destruct (JSON_parse content) as [[]|].
Qed.

(** ** Further properties of [set] *)

(** X4 -- when the key names a directory [set] fails with the EISDIR of the
    write: the error is logged to the console under the label "Error:" and
    thrown again, and no file, counter or log entry changes. *)
Theorem set_on_directory_key_fails (prefix : option string) (name : string)
    (payload : jsvalue) (ttl : option Z) (w : World) (sz : Z) :
  let key := formatFileName prefix name in
  let err := EISDIR (path_resolve (basePath this) key) in
  lookup_node (basePath this) key w = Some (Dir sz) ->
  set JSON_stringify this prefix name payload ttl w =
    (Throw err, with_console (console w ++ [("Error:", err)]) w).
Proof.
  intros key err Hl.
  unfold set, try_catch, bind, mkdir_recursive, Date_now, writeFile, console_error,
    throw, ret.
  rewrite formatFileName_default. fold key.
  unfold lookup_node in Hl.
  destruct (fs w !! basePath this) as [d|] eqn:Hd; [| done]. simpl in Hl.
  simpl. rewrite Hd, Hl. reflexivity.
Qed.

(** X5 -- a second [set] on the same pair overwrites the first: afterwards
    [get] returns the second payload (as [Object] left it), whatever the
    first one and the two TTLs were, and every other entry is as before the
    two writes.  The key is one the platform accepts as a file name, the
    cache directory exists or can be created, and no directory has the key's
    name. *)
Theorem set_overwrites (prefix : option string) (name : string)
    (payload1 payload2 : jsvalue) (ttl1 ttl2 : option Z) (w : World) (t2 : Z) :
  let key := formatFileName prefix name in
  let data2 := document (Object payload2) (default (defaultTTL this) ttl2) t2 in
  fst (mkdir_recursive (basePath this) w) = Ok tt ->
  create_error (basePath this) key = None ->
  (forall sz, lookup_node (basePath this) key w <> Some (Dir sz)) ->
  JSON_parse (JSON_stringify data2) = Some data2 ->
  exists path w1 w2,
    set JSON_stringify this prefix name payload1 ttl1 w = (Ok path, w1) /\
    set JSON_stringify this prefix name payload2 ttl2 (at_time t2 w1) = (Ok path, w2) /\
    get JSON_parse this prefix name w2 = (Ok (Val (Object payload2)), w2) /\
    (forall other, other <> key ->
       lookup_node (basePath this) other w2 = lookup_node (basePath this) other w).
Proof.
  intros key data2 Hmk Hname Hnd Hcodec.
  destruct (set_ok prefix name payload1 ttl1 w Hmk Hname Hnd)
    as (w1 & Hset1 & Hl1 & Ho1 & _).
  assert (Hex : is_Some (fs (at_time t2 w1) !! basePath this)).
  { unfold lookup_node in Hl1. simpl. by destruct (fs w1 !! basePath this). }
  destruct (set_ok prefix name payload2 ttl2 (at_time t2 w1))
    as (w2 & Hset2 & Hl2 & Ho2 & _).
  { by rewrite (mkdir_recursive_present _ _ Hex). }
  { exact Hname. }
  { intros sz. rewrite lookup_node_at_time. by rewrite Hl1. }
  exists (path_resolve (basePath this) key), w1, w2.
  split; [exact Hset1 |]. split; [exact Hset2 |]. split.
  - by rewrite (get_file prefix name (JSON_stringify data2) data2 w2 Hl2 Hcodec).
  - intros other Hne. rewrite (Ho2 other Hne), lookup_node_at_time. by apply Ho1.
Qed.

(** X6 -- a successful [set] changes the one file it writes and nothing
    else of what the engine reads: the other entries of its directory, the
    clock, the three counters, the sweep log and the console are untouched;
    a missing cache directory is created on the way, and when the directory
    exists already no other directory changes.  The key is one the platform
    accepts as a file name and no directory has that name. *)
Theorem set_touches_only_its_key (prefix : option string) (name : string)
    (payload : jsvalue) (ttl : option Z) (w : World) :
  let key := formatFileName prefix name in
  fst (mkdir_recursive (basePath this) w) = Ok tt ->
  create_error (basePath this) key = None ->
  (forall sz, lookup_node (basePath this) key w <> Some (Dir sz)) ->
  exists path w1,
    set JSON_stringify this prefix name payload ttl w = (Ok path, w1) /\
    is_Some (fs w1 !! basePath this) /\
    (exists content, lookup_node (basePath this) key w1 = Some (File content)) /\
    (forall other, other <> key ->
       lookup_node (basePath this) other w1 = lookup_node (basePath this) other w) /\
    (is_Some (fs w !! basePath this) ->
     forall dir, dir <> basePath this -> fs w1 !! dir = fs w !! dir) /\
    same_globals w w1.
Proof.
  intros key Hmk Hname Hnd.
  destruct (set_ok prefix name payload ttl w Hmk Hname Hnd)
    as (w1 & Hset & Hl & Ho & Hg & Hdirs).
  exists (path_resolve (basePath this) key), w1.
  split; [exact Hset |].
  split; [unfold lookup_node in Hl; by destruct (fs w1 !! basePath this) |].
  split; [by eexists |].
  split; [exact Ho |]. split; [exact Hdirs | exact Hg].
Qed.

(** ** Further properties of the derived key *)

Lemma string_app_split (l1 l2 h1 h2 : string) :
  String.length h1 = String.length h2 ->
  l1 +:+ h1 = l2 +:+ h2 ->
  l1 = l2 /\ h1 = h2.
Proof.
  intros Hlen. revert l2.
  induction l1 as [|c1 l1 IH]; intros [|c2 l2] Heq.
  - by split.
  - exfalso. change (h1 = String c2 (l2 +:+ h2)) in Heq.
    rewrite Heq in Hlen. simpl in Hlen. rewrite string_length_app in Hlen. lia.
  - exfalso. change (String c1 (l1 +:+ h1) = h2) in Heq.
    rewrite <- Heq in Hlen. simpl in Hlen. rewrite string_length_app in Hlen. lia.
  - change (String c1 (l1 +:+ h1) = String c2 (l2 +:+ h2)) in Heq.
    injection Heq as -> Heq. destruct (IH l2 Heq) as [-> ->]. by split.
Qed.

(** X7 -- two (prefix, name) pairs are given the same key exactly when their
    prefixes are the same label (an omitted prefix counting as the empty
    one) and their names have the same digest: the prefix is never mixed
    into the digest and never confused with it. *)
Theorem formatFileName_collision (prefix1 prefix2 : option string)
    (name1 name2 : string) :
  formatFileName prefix1 name1 = formatFileName prefix2 name2 <->
  default "" prefix1 = default "" prefix2 /\ sha256_hex name1 = sha256_hex name2.
Proof.
  split.
  - unfold formatFileName. cbv zeta.
    generalize (default "" prefix1) (default "" prefix2). intros p1 p2 Heq.
    apply string_app_split in Heq as [Hlabel Hdigest];
      [| by rewrite !sha256_hex_length].
    split; [| exact Hdigest].
    destruct (String.eqb_spec p1 "") as [E1 | E1];
      destruct (String.eqb_spec p2 "") as [E2 | E2]; simpl in Hlabel.
    + by rewrite E1, E2.
    + exfalso. apply (f_equal String.length) in Hlabel.
      rewrite string_length_app in Hlabel. simpl in Hlabel. lia.
    + exfalso. apply (f_equal String.length) in Hlabel.
      rewrite string_length_app in Hlabel. simpl in Hlabel. lia.
    + by apply string_app_split in Hlabel as [Hp _].
  - intros [Hp Hd]. unfold formatFileName. cbv zeta. by rewrite Hp, Hd.
Qed.

(** ** Further properties of the sweep *)

(** X8 -- [validateFile] never throws and never changes the world, whatever
    the entry is: every failure inside it ends as the result [undefined]. *)
Theorem validateFile_swallows_everything (file : string) (w : World) :
  exists validated,
    validateFile JSON_parse ToNumber_other this file w = (Ok validated, w) /\
    ((forall content, lookup_node (basePath this) file w <> Some (File content)) ->
     validated = None).
Proof.
  destruct (validateFile_total file w) as [v Hv].
  exists v. split; [exact Hv |].
  intros Hnf. revert Hv.
  unfold validateFile, try_catch, bind, stat, readFile, throw, ret.
  destruct (lookup_node (basePath this) file w) as [[c|sz]|] eqn:Hl; simpl.
  - by destruct (Hnf c).
  - by intros [= <-].
  - by intros [= <-].
Qed.

(** The whole run of a sweep over an existing directory. *)
Lemma invalidate_run (w : World) (d : gmap string node) :
  fs w !! basePath this = Some d ->
  exists l' d',
    let w0 := snd (incr_invalidate w) in
    let w1 := with_fs (<[basePath this := d']> (fs w0)) w0 in
    for_of (scandir d) (invalidate_file JSON_parse ToNumber_other this)
      ({| logs := []; filesInvalidated := 0; totalSize := 0 |}, w0) =
      (Ok tt, (l', w1)) /\
    (forall name, d' !! name = after_sweep JSON_parse ToNumber_other this w name) /\
    invalidate JSON_parse ToNumber_other this w =
      (Ok {| r_endpointInvalidateRequestCount :=
               GLOBAL_ENDPOINT_INVALIDATE_REQUEST_COUNT w + 1;
             r_filesInvalidated := filesInvalidated l';
             r_bytes := totalSize l';
             r_logs := logs l';
             r_logsOverTime :=
               GLOBAL_LOGS_OVER_TIME (push_snapshot (totalSize l') w1) |},
       push_snapshot (totalSize l') w1).
Proof.
  intros Hd.
  set (w0 := snd (incr_invalidate w)).
  assert (Hd0 : fs w0 !! basePath this = Some d) by exact Hd.
  destruct (sweep_loop (scandir d)
              {| logs := []; filesInvalidated := 0; totalSize := 0 |} w0 d Hd0)
    as (l' & d' & Hloop & Hd').
  { apply scandir_NoDup. }
  { intros f Hf. by apply listing_elem. }
  exists l', d'. cbv zeta. fold w0. split; [exact Hloop |]. split.
  - intros name. rewrite Hd'.
    rewrite (after_sweep_frame name w w0) by done.
    case_decide as Hm; [done |].
    unfold after_sweep, lookup_node. rewrite Hd0. simpl.
    destruct (d !! name) as [n|] eqn:Hn; [| done].
    exfalso. apply Hm. apply listing_elem. by exists n.
  - unfold invalidate.
    match goal with
    | |- context [try_catch ?m ?h ?s] =>
        assert (Hrun : try_catch m h s =
                       (Ok tt, (l', with_fs (<[basePath this := d']> (fs w0)) w0)))
    end.
    { apply try_catch_ok.
      erewrite bind_ok; [| by apply lift_eq, readdirSync_ok].
      erewrite bind_ok; [| by apply lift_eq]. exact Hloop. }
    rewrite Hrun. reflexivity.
Qed.

(** X9 -- a second sweep at the same clock reading removes nothing more:
    the directory after two sweeps is the directory after one. *)
Theorem invalidate_twice (w : World) (name : string) :
  let w1 := snd (invalidate JSON_parse ToNumber_other this w) in
  lookup_node (basePath this) name
    (snd (invalidate JSON_parse ToNumber_other this w1)) =
  lookup_node (basePath this) name w1.
Proof.
  cbv zeta.
  destruct (fs w !! basePath this) as [d|] eqn:Hd.
  - destruct (invalidate_run w d Hd) as (l' & d' & _ & Hd' & Hrun).
    rewrite Hrun. simpl snd.
    set (w1 := push_snapshot _ _).
    assert (Hd1 : fs w1 !! basePath this = Some d') by apply lookup_insert_eq.
    assert (Hl1 : forall n, lookup_node (basePath this) n w1 = d' !! n).
    { intros n. unfold lookup_node. by rewrite Hd1. }
    destruct (invalidate_present w1 d' Hd1) as (r2 & w2 & Hrun2 & Hfs2 & _).
    rewrite Hrun2. simpl snd. rewrite Hfs2.
    unfold after_sweep at 1. rewrite Hl1.
    destruct (d' !! name) as [[c|sz]|] eqn:Hn; [| done | done].
    assert (Hw : lookup_node (basePath this) name w = Some (File c) /\
                 invalid JSON_parse ToNumber_other this name w = false).
    { rewrite Hd' in Hn. unfold after_sweep in Hn.
      destruct (lookup_node (basePath this) name w) as [[c'|sz]|]; [| done | done].
      destruct (invalid JSON_parse ToNumber_other this name w); [done |].
      by simplify_eq. }
    destruct Hw as [Hw Hinv].
    rewrite (invalid_frame name w1 w); [by rewrite Hinv | | done].
    by rewrite Hl1, Hn, Hw.
  - rewrite (invalidate_missing w Hd). simpl snd.
    by rewrite (invalidate_missing (push_snapshot 0 w) Hd).
Qed.

(** X10 -- an entry written by [set] with a positive TTL survives a later
    sweep exactly as long as the sweep runs before [write time + ttl * 1000]
    milliseconds; from that instant on the sweep deletes it.  The TTL in
    milliseconds and the expiration time are safe integers, the cache
    directory exists, the key is one the platform accepts as a file name and
    no directory has that name. *)
Theorem sweep_deletes_after_ttl (prefix : option string) (name : string)
    (payload : jsvalue) (ttl : Z) (w : World) (t : Z) :
  let key := formatFileName prefix name in
  let data := entry (Object payload) (ttl * 1000) (now w) in
  0 < ttl -> 0 <= now w ->
  safe_integer (ttl * 1000) ->
  safe_integer (now w + ttl * 1000) ->
  is_Some (fs w !! basePath this) ->
  create_error (basePath this) key = None ->
  (forall sz, lookup_node (basePath this) key w <> Some (Dir sz)) ->
  JSON_parse (JSON_stringify data) = Some data ->
  exists path w1,
    set JSON_stringify this prefix name payload (Some ttl) w = (Ok path, w1) /\
    lookup_node (basePath this) key
      (snd (invalidate JSON_parse ToNumber_other this (at_time t w1))) =
      if now w + ttl * 1000 <=? t then None else Some (File (JSON_stringify data)).
Proof.
  intros key data Httl Hnow Hsafe1 Hsafe2 Hex Hname Hnd Hcodec.
  destruct (set_ok prefix name payload (Some ttl) w) as (w1 & Hset & Hl & _).
  { by rewrite (mkdir_recursive_present _ _ Hex). }
  { exact Hname. }
  { exact Hnd. }
  exists (path_resolve (basePath this) key), w1. split; [exact Hset |].
  simpl default in Hl. fold key in Hl.
  rewrite (document_safe _ _ _ Hsafe1 Hsafe2) in Hl.
  change (lookup_node (basePath this) key w1 = Some (File (JSON_stringify data))) in Hl.
  assert (Hlt : lookup_node (basePath this) key (at_time t w1) =
                Some (File (JSON_stringify data))) by exact Hl.
  assert (Hd : exists d, fs (at_time t w1) !! basePath this = Some d).
  { unfold lookup_node in Hlt. destruct (fs (at_time t w1) !! basePath this); eauto.
    discriminate Hlt. }
  destruct Hd as [d Hd].
  destruct (invalidate_present (at_time t w1) d Hd) as (r & w' & Hrun & Hfs & _).
  rewrite Hrun. simpl snd. rewrite Hfs. unfold after_sweep. rewrite Hlt.
  assert (Hzero : (ttl * 1000 =? 0) = false) by (apply Z.eqb_neq; lia).
  assert (Hprops : data = JObj [ ("payload", Object payload);
                                 ("ttl", JNum (ttl * 1000));
                                 ("expiration", JNum (now w + ttl * 1000)) ]).
  { unfold data, entry. by rewrite Hzero. }
  clearbody data. subst data.
  destruct (Z.leb_spec (now w + ttl * 1000) t) as [Hle | Hgt].
  - by rewrite (invalid_expired key _ _ (now w + ttl * 1000) (at_time t w1) Hlt Hcodec).
  - rewrite (invalid_live key _ _ (now w + ttl * 1000) (ttl * 1000) (at_time t w1)
               Hlt Hcodec); [done | done | done | lia | done].
Qed.

(** *** What the sweep reports *)

Lemma is_regular_frame (name : string) (w1 w2 : World) :
  lookup_node (basePath this) name w1 = lookup_node (basePath this) name w2 ->
  is_regular this w1 name = is_regular this w2 name /\
  entry_size this w1 name = entry_size this w2 name.
Proof. intros H. unfold is_regular, entry_size. by rewrite H. Qed.

Lemma swept_frame (name : string) (w1 w2 : World) :
  lookup_node (basePath this) name w1 = lookup_node (basePath this) name w2 ->
  now w1 = now w2 ->
  swept JSON_parse ToNumber_other this w1 name =
  swept JSON_parse ToNumber_other this w2 name.
Proof.
  intros H1 H2. unfold swept.
  by rewrite (proj1 (is_regular_frame name w1 w2 H1)), (invalid_frame name w1 w2 H1 H2).
Qed.

Lemma validateFile_directory (fname : string) (sz : Z) (w : World) :
  lookup_node (basePath this) fname w = Some (Dir sz) ->
  validateFile JSON_parse ToNumber_other this fname w = (Ok None, w).
Proof.
  intros Hl. unfold validateFile, try_catch, bind, stat, throw, ret.
  by rewrite Hl.
Qed.

(** The local variables after one iteration over a present entry. *)
Lemma invalidate_file_locals (fname : string) (l l1 : sweep_locals) (w : World)
    (s1 : World) :
  is_Some (lookup_node (basePath this) fname w) ->
  invalidate_file JSON_parse ToNumber_other this fname (l, w) = (Ok tt, (l1, s1)) ->
  totalSize l1 = totalSize l + entry_size this w fname /\
  filesInvalidated l1 =
    filesInvalidated l +
    (if swept JSON_parse ToNumber_other this w fname then 1 else 0) /\
  map file (logs l1) =
    (map file (logs l) ++ (if is_regular this w fname then [fname] else []))%list /\
  map valid (logs l1) =
    (map valid (logs l) ++
     (if is_regular this w fname
      then [negb (invalid JSON_parse ToNumber_other this fname w)] else []))%list.
Proof.
  intros [n Hl].
  assert (Hdn : exists d, fs w !! basePath this = Some d /\ d !! fname = Some n).
  { unfold lookup_node in Hl. destruct (fs w !! basePath this) as [d|]; [| done].
    by exists d. }
  destruct Hdn as (d & Hd & Hn).
  unfold swept, is_regular, entry_size, invalid. rewrite Hl.
  destruct (validateFile_total fname w) as [v Hv].
  unfold invalidate_file, bind, try_catch, lift, locally, stat, unlinkSync, ret.
  simpl. rewrite Hl. simpl. rewrite Hv. simpl.
  destruct (Qle_bool _ 0) eqn:Hinv; simpl.
  - rewrite Hd, Hn. destruct n as [c|sz]; simpl; intros [= <- <-];
      cbn [logs totalSize filesInvalidated andb];
      rewrite ?map_app, ?app_nil_r; repeat split; try done; try lia.
  - destruct n as [c|sz].
    + intros [= <- <-]. cbn [logs totalSize filesInvalidated andb].
      rewrite ?map_app. repeat split; try done; lia.
    + exfalso. rewrite (validateFile_directory fname sz w Hl) in Hv.
      injection Hv as <-. discriminate Hinv.
Qed.

(** The local variables after the loop over a duplicate-free list of
    present entries. *)
Lemma sweep_loop_locals (files : list string) :
  forall (l l' : sweep_locals) (w s' : World) (d : gmap string node),
    fs w !! basePath this = Some d ->
    NoDup files ->
    (forall f, f ∈ files -> is_Some (d !! f)) ->
    for_of files (invalidate_file JSON_parse ToNumber_other this) (l, w) =
      (Ok tt, (l', s')) ->
    totalSize l' = totalSize l + sum_Z (map (entry_size this w) files) /\
    filesInvalidated l' =
      filesInvalidated l +
      Z.of_nat (length (List.filter (swept JSON_parse ToNumber_other this w) files)) /\
    map file (logs l') =
      (map file (logs l) ++ List.filter (is_regular this w) files)%list /\
    map valid (logs l') =
      (map valid (logs l) ++
       map (fun f => negb (invalid JSON_parse ToNumber_other this f w))
         (List.filter (is_regular this w) files))%list.
Proof.
  induction files as [|f rest IH]; intros l l' w s' d Hd Hnd Hin Hrun.
  - simpl in Hrun. injection Hrun as <- <-. simpl.
    rewrite !app_nil_r. repeat split; lia.
  - apply NoDup_cons in Hnd as [Hf Hnd].
    destruct (Hin f) as [n Hn]; [by left |].
    destruct (invalidate_file_step f l w d n Hd Hn) as [l1 Hstep].
    set (d1 := if is_File n && invalid JSON_parse ToNumber_other this f w
               then delete f d else d) in Hstep.
    set (w1 := with_fs (<[basePath this := d1]> (fs w)) w) in Hstep.
    assert (Hd1 : fs w1 !! basePath this = Some d1) by apply lookup_insert_eq.
    assert (Hother : forall g, g <> f -> d1 !! g = d !! g).
    { intros g Hg. unfold d1. case_match; [by rewrite lookup_delete_ne | done]. }
    assert (Hl : is_Some (lookup_node (basePath this) f w)).
    { unfold lookup_node. rewrite Hd. by exists n. }
    destruct (invalidate_file_locals f l l1 w w1 Hl Hstep) as (Ht & Hc & Hn1 & Hv1).
    change (for_of (f :: rest) (invalidate_file JSON_parse ToNumber_other this) (l, w))
      with (bind (invalidate_file JSON_parse ToNumber_other this f)
              (fun _ => for_of rest (invalidate_file JSON_parse ToNumber_other this))
              (l, w)) in Hrun.
    unfold bind in Hrun. rewrite Hstep in Hrun.
    destruct (IH l1 l' w1 s' d1 Hd1 Hnd) as (Ht' & Hc' & Hn' & Hv'); [| exact Hrun |].
    { intros g Hg. rewrite Hother; [apply Hin; by right | by intros ->]. }
    assert (Hframe : forall g, g ∈ rest ->
              lookup_node (basePath this) g w1 = lookup_node (basePath this) g w).
    { intros g Hg. unfold lookup_node. rewrite Hd1, Hd. simpl.
      apply Hother. by intros ->. }
    assert (Esize : map (entry_size this w1) rest = map (entry_size this w) rest).
    { apply map_ext_in. intros g Hg%list_elem_of_In.
      by apply is_regular_frame, Hframe. }
    assert (Eswept : List.filter (swept JSON_parse ToNumber_other this w1) rest =
                     List.filter (swept JSON_parse ToNumber_other this w) rest).
    { apply filter_ext_in. intros g Hg%list_elem_of_In.
      apply swept_frame; [by apply Hframe | done]. }
    assert (Ereg : List.filter (is_regular this w1) rest =
                   List.filter (is_regular this w) rest).
    { apply filter_ext_in. intros g Hg%list_elem_of_In.
      by apply is_regular_frame, Hframe. }
    assert (Einv : map (fun g => negb (invalid JSON_parse ToNumber_other this g w1))
                     (List.filter (is_regular this w) rest) =
                   map (fun g => negb (invalid JSON_parse ToNumber_other this g w))
                     (List.filter (is_regular this w) rest)).
    { apply map_ext_in. intros g Hg%filter_In. destruct Hg as [Hg%list_elem_of_In _].
      f_equal. apply invalid_frame; [by apply Hframe | done]. }
    rewrite Esize in Ht'. rewrite Eswept in Hc'. rewrite Ereg in Hn', Hv'.
    rewrite Einv in Hv'.
    rewrite Ht', Hc', Hn', Hv', Ht, Hc, Hn1, Hv1. simpl.
    destruct (swept JSON_parse ToNumber_other this w f),
      (is_regular this w f); simpl; rewrite <- ?app_assoc; simpl;
      repeat split; try done; lia.
Qed.

(** X11 -- what a sweep of an existing directory reports: [bytes] is the
    total size of every entry listed, expired or not and sub-directories
    included, measured before anything is deleted; [filesInvalidated] is the
    number of regular files it deleted; [logs] holds one record per regular
    file, in listing order (sorted by name), flagged valid exactly when the
    file was kept (a sub-directory gets none); and the snapshot appended to
    the history carries the same byte total and the sweep counter just
    returned. *)
Theorem invalidate_report (w : World) (d : gmap string node) :
  fs w !! basePath this = Some d ->
  let files := scandir d in
  exists r w',
    invalidate JSON_parse ToNumber_other this w = (Ok r, w') /\
    r_bytes r = sum_Z (map (entry_size this w) files) /\
    r_filesInvalidated r =
      Z.of_nat (length (List.filter (swept JSON_parse ToNumber_other this w) files)) /\
    map file (r_logs r) = List.filter (is_regular this w) files /\
    map valid (r_logs r) =
      map (fun f => negb (invalid JSON_parse ToNumber_other this f w))
        (List.filter (is_regular this w) files) /\
    r_logsOverTime r = GLOBAL_LOGS_OVER_TIME w' /\
    GLOBAL_LOGS_OVER_TIME w' =
      (GLOBAL_LOGS_OVER_TIME w ++
       [ {| id := now w;
            bytes := r_bytes r;
            endpointInvalidateRequestCount := r_endpointInvalidateRequestCount r;
            endpointDeleteRequestCount := GLOBAL_ENDPOINT_DELETE_REQUEST_COUNT w;
            endpointDeleteByRegexRequestCount :=
              GLOBAL_ENDPOINT_DELETE_BY_REGEX_REQUEST_COUNT w |} ])%list.
Proof.
  intros Hd. cbv zeta. set (files := scandir d).
  destruct (invalidate_run w d Hd) as (l' & d' & Hloop & _ & Hrun).
  cbv zeta in Hloop, Hrun.
  set (w0 := snd (incr_invalidate w)) in *.
  assert (Hd0 : fs w0 !! basePath this = Some d) by exact Hd.
  assert (Hin : forall f, f ∈ scandir d -> is_Some (d !! f)).
  { intros f Hf. by apply listing_elem. }
  destruct (sweep_loop_locals (scandir d) _ l' w0 _ d Hd0
              (scandir_NoDup d) Hin Hloop) as (Ht & Hc & Hn & Hv).
  fold files in Ht, Hc, Hn, Hv. cbn [totalSize filesInvalidated logs map app] in Ht, Hc, Hn, Hv.
  assert (Esize : map (entry_size this w0) files = map (entry_size this w) files)
    by reflexivity.
  assert (Eswept : List.filter (swept JSON_parse ToNumber_other this w0) files =
                   List.filter (swept JSON_parse ToNumber_other this w) files).
  { apply filter_ext_in. intros g _. by apply swept_frame. }
  assert (Einv : map (fun g => negb (invalid JSON_parse ToNumber_other this g w0))
                   (List.filter (is_regular this w) files) =
                 map (fun g => negb (invalid JSON_parse ToNumber_other this g w))
                   (List.filter (is_regular this w) files)).
  { apply map_ext_in. intros g _. f_equal. by apply invalid_frame. }
  eexists _, _. split; [exact Hrun |]. simpl.
  split; [rewrite Ht, Esize; lia |].
  split; [rewrite Hc, Eswept; lia |].
  split; [exact Hn |].
  split; [by rewrite Hv, <- Einv |].
  split; [reflexivity |].
  reflexivity.
Qed.

(** ** Further properties of the flushes *)

Lemma unlinkSync_globals (dir name : string) (w : World) :
  same_globals w (snd (unlinkSync dir name w)).
Proof.
  unfold unlinkSync. destruct (fs w !! dir) as [d|]; [| apply same_globals_refl].
  destruct (d !! name) as [[c|sz]|]; by repeat split.
Qed.

Lemma unlink_loop_globals (dir : string) (files : list string) (w : World) :
  same_globals w (snd (for_of files (fun file => unlinkSync dir file) w)).
Proof.
  revert w. induction files as [|f rest IH]; intros w; [apply same_globals_refl |].
  change (for_of (f :: rest) (fun file => unlinkSync dir file) w)
    with (bind (unlinkSync dir f)
            (fun _ => for_of rest (fun file => unlinkSync dir file)) w).
  unfold bind. pose proof (unlinkSync_globals dir f w) as Hf.
  destruct (unlinkSync dir f w) as [[[]|e] w1]; simpl in *; [| exact Hf].
  eapply same_globals_trans; [exact Hf | apply IH].
Qed.

Lemma flushByRegex_loop_globals (org regex : string) (files : list string) :
  forall (deleted : Z) (w : World),
    same_globals w (snd (flushByRegex_loop RegExp this org regex files deleted w)).
Proof.
  induction files as [|f rest IH]; intros deleted w; [apply same_globals_refl |].
  simpl. unfold bind, String_match, throw, ret.
  destruct (RegExp org) as [m1|]; [| apply same_globals_refl].
  destruct (m1 f); simpl; [| apply IH].
  destruct (RegExp regex) as [m2|]; [| apply same_globals_refl].
  destruct (m2 f); simpl; [| apply IH].
  pose proof (unlinkSync_globals (basePath this) f w) as Hf.
  destruct (unlinkSync (basePath this) f w) as [[[]|e] w1]; simpl in *; [| exact Hf].
  eapply same_globals_trans; [exact Hf | apply IH].
Qed.

(** X12 -- [flushAll] never throws, and every call, successful or not,
    adds exactly one to the full-flush counter and leaves the clock, the two
    other counters and the sweep log alone; a successful call returns the
    new counter value and writes nothing to the console, a failed one
    returns [undefined] and writes exactly one console line. *)
Theorem flushAll_always_counts (w : World) :
  exists r w',
    flushAll this w = (Ok r, w') /\
    GLOBAL_ENDPOINT_DELETE_REQUEST_COUNT w' = GLOBAL_ENDPOINT_DELETE_REQUEST_COUNT w + 1 /\
    GLOBAL_ENDPOINT_INVALIDATE_REQUEST_COUNT w' =
      GLOBAL_ENDPOINT_INVALIDATE_REQUEST_COUNT w /\
    GLOBAL_ENDPOINT_DELETE_BY_REGEX_REQUEST_COUNT w' =
      GLOBAL_ENDPOINT_DELETE_BY_REGEX_REQUEST_COUNT w /\
    GLOBAL_LOGS_OVER_TIME w' = GLOBAL_LOGS_OVER_TIME w /\
    now w' = now w /\
    match r with
    | Some result =>
        r_requestCount result = GLOBAL_ENDPOINT_DELETE_REQUEST_COUNT w + 1 /\
        console w' = console w
    | None =>
        exists e, console w' = (console w ++ [("Error reading cache folder:", e)])%list
    end.
Proof.
  unfold flushAll, try_catch, bind, incr_delete, readdirSync, console_error, ret.
  simpl.
  destruct (fs w !! basePath this) as [d|]; simpl.
  - match goal with
    | |- context [for_of ?files ?body ?w0] =>
        pose proof (unlink_loop_globals (basePath this) files w0) as Hg;
        destruct (for_of files body w0) as [[[]|e] w1]
    end; destruct Hg as (? & ? & ? & ? & ? & ?); simpl in *;
      eexists _, _; (split; [reflexivity |]); simpl; repeat split;
      try congruence; eexists; by f_equal.
  - eexists _, _. split; [reflexivity |]. simpl. repeat split; eauto.
Qed.

(** X13 -- [flushByRegex] never throws, and every call -- also one with a
    malformed pattern, a missing directory or a failing deletion -- adds
    exactly one to the pattern-flush counter and leaves the clock, the two
    other counters and the sweep log alone; a successful call returns the
    new counter value, a failed one returns [undefined] after one console
    line. *)
Theorem flushByRegex_always_counts (org : string) (regex : option string)
    (w : World) :
  exists r w',
    flushByRegex RegExp this org regex w = (Ok r, w') /\
    GLOBAL_ENDPOINT_DELETE_BY_REGEX_REQUEST_COUNT w' =
      GLOBAL_ENDPOINT_DELETE_BY_REGEX_REQUEST_COUNT w + 1 /\
    GLOBAL_ENDPOINT_INVALIDATE_REQUEST_COUNT w' =
      GLOBAL_ENDPOINT_INVALIDATE_REQUEST_COUNT w /\
    GLOBAL_ENDPOINT_DELETE_REQUEST_COUNT w' = GLOBAL_ENDPOINT_DELETE_REQUEST_COUNT w /\
    GLOBAL_LOGS_OVER_TIME w' = GLOBAL_LOGS_OVER_TIME w /\
    now w' = now w /\
    match r with
    | Some result =>
        r_requestCount result = GLOBAL_ENDPOINT_DELETE_BY_REGEX_REQUEST_COUNT w + 1 /\
        console w' = console w
    | None =>
        exists e, console w' = (console w ++ [("Error reading cache folder:", e)])%list
    end.
Proof.
  unfold flushByRegex, try_catch, bind, incr_delete_by_regex, readdirSync,
    console_error, ret.
  simpl.
  destruct (fs w !! basePath this) as [d|]; simpl.
  - match goal with
    | |- context [flushByRegex_loop ?R ?t ?o ?re ?files ?n ?w0] =>
        pose proof (flushByRegex_loop_globals o re files n w0) as Hg;
        destruct (flushByRegex_loop R t o re files n w0) as [[k|e] w1]
    end; destruct Hg as (? & ? & ? & ? & ? & ?); simpl in *;
      eexists _, _; (split; [reflexivity |]); simpl; repeat split;
      try congruence; eexists; by f_equal.
  - eexists _, _. split; [reflexivity |]. simpl. repeat split; eauto.
Qed.



(** X15 -- on an engine whose directory does not exist both flushes fail
    inside: they return [undefined], write the ENOENT of the listing to the
    console, keep their counter incremented and create nothing. *)
Theorem flush_missing_directory (org : string) (regex : option string) (w : World) :
  fs w !! basePath this = None ->
  flushAll this w =
    (Ok None,
     with_console (console w ++ [("Error reading cache folder:", ENOENT (basePath this))])
       (snd (incr_delete w))) /\
  flushByRegex RegExp this org regex w =
    (Ok None,
     with_console (console w ++ [("Error reading cache folder:", ENOENT (basePath this))])
       (snd (incr_delete_by_regex w))).
Proof.
  intros Hd. split.
  - unfold flushAll.
    match goal with
    | |- try_catch ?m ?h ?s = _ =>
        rewrite (try_catch_throw m h s (snd (incr_delete w)) (ENOENT (basePath this)))
    end.
    + reflexivity.
    + erewrite bind_ok; [| reflexivity].
      erewrite bind_throw; [reflexivity |]. by apply readdirSync_missing.
  - unfold flushByRegex.
    match goal with
    | |- try_catch ?m ?h ?s = _ =>
        rewrite (try_catch_throw m h s (snd (incr_delete_by_regex w))
                   (ENOENT (basePath this)))
    end.
    + reflexivity.
    + erewrite bind_ok; [| reflexivity].
      erewrite bind_throw; [reflexivity |]. by apply readdirSync_missing.
Qed.

(** X16 -- a malformed organisation pattern is noticed on the first entry:
    on a directory that is not empty [flushByRegex] deletes nothing, logs
    the SyntaxError and returns [undefined]; on an empty directory the
    pattern is never compiled and the call succeeds with [deleted = 0]. *)
Theorem flushByRegex_malformed_pattern (org : string) (regex : option string)
    (w : World) (d : gmap string node) :
  fs w !! basePath this = Some d ->
  RegExp org = None ->
  flushByRegex RegExp this org regex w =
    if decide (d = ∅)
    then (Ok (Some {| r_requestCount :=
                        GLOBAL_ENDPOINT_DELETE_BY_REGEX_REQUEST_COUNT w + 1;
                      r_deleted := 0 |}),
          snd (incr_delete_by_regex w))
    else (Ok None,
          with_console (console w ++ [("Error reading cache folder:", SyntaxError)])
            (snd (incr_delete_by_regex w))).
Proof.
  intros Hd Horg.
  unfold flushByRegex, try_catch.
  erewrite bind_ok; [| reflexivity].
  erewrite bind_ok; [| by apply readdirSync_ok].
  case_decide as Hempty.
  - apply scandir_nil in Hempty. rewrite Hempty. reflexivity.
  - destruct (scandir d) as [|f rest] eqn:Hlist.
    { by apply scandir_nil in Hlist. }
    simpl. unfold bind, String_match, throw. rewrite Horg. reflexivity.
Qed.

Lemma flushByRegex_loop_app (org regex : string) (xs ys : list string) :
  forall (deleted : Z) (w : World),
    flushByRegex_loop RegExp this org regex (xs ++ ys) deleted w =
    bind (flushByRegex_loop RegExp this org regex xs deleted)
      (fun k => flushByRegex_loop RegExp this org regex ys k) w.
Proof.
  induction xs as [|x xs IH]; intros deleted w; [reflexivity |].
  simpl. unfold bind, String_match, throw, ret in *.
  destruct (RegExp org) as [m1|]; [| reflexivity].
  destruct (m1 x); simpl; [| apply IH].
  destruct (RegExp regex) as [m2|]; [| reflexivity].
  destruct (m2 x); simpl; [| apply IH].
  destruct (unlinkSync (basePath this) x w) as [[[]|e] w1]; [apply IH | reflexivity].
Qed.

(** X17 -- when the deletion of a matching entry fails (it is a
    directory), [flushByRegex] stops there like [flushAll]: the matching
    entries listed before it, in the order of [readdirSync] (sorted by
    name), are gone, it and everything listed after it stay, and the call
    logs the failure and returns [undefined] -- the count of what was
    already deleted is lost. *)
Theorem flushByRegex_catches_failed_deletion (org : string) (regex : option string)
    (m1 m2 : string -> bool) (w : World) (d : gmap string node)
    (before after : list string) (name : string) (sz : Z) :
  fs w !! basePath this = Some d ->
  scandir d = (before ++ name :: after)%list ->
  RegExp org = Some m1 ->
  RegExp (default "" regex) = Some m2 ->
  (forall f, f ∈ before -> m1 f && m2 f = true -> exists c, d !! f = Some (File c)) ->
  d !! name = Some (Dir sz) ->
  m1 name && m2 name = true ->
  exists w',
    flushByRegex RegExp this org regex w = (Ok None, w') /\
    (forall f, f ∈ before ->
       lookup_node (basePath this) f w' = if m1 f && m2 f then None else d !! f) /\
    (forall f, f ∈ name :: after -> lookup_node (basePath this) f w' = d !! f) /\
    console w' =
      (console w ++
       [("Error reading cache folder:", EISDIR (path_join (basePath this) name))])%list.
Proof.
  intros Hd Hlist H1 H2 Hfiles Hdir Hmatch.
  pose proof (scandir_NoDup d) as Hnd. rewrite Hlist in Hnd.
  apply NoDup_app in Hnd as (Hnd1 & Hdisj & Hnd2).
  set (w0 := snd (incr_delete_by_regex w)).
  destruct (flushByRegex_loop_ok org (default "" regex) m1 m2 before H1 H2 w0 d 0 Hd
              Hnd1 Hfiles) as (d' & Hloop & Hd').
  set (w1 := with_fs (<[basePath this := d']> (fs w0)) w0) in Hloop.
  assert (Hd1 : fs w1 !! basePath this = Some d') by apply lookup_insert_eq.
  assert (Hn1 : d' !! name = Some (Dir sz)).
  { rewrite Hd'. rewrite decide_False; [done |].
    intros Hm. apply (Hdisj name Hm). by left. }
  apply andb_true_iff in Hmatch as [Hm1 Hm2].
  assert (Hrun : flushByRegex_loop RegExp this org (default "" regex)
                   (scandir d) 0 w0 =
                 (Throw (EISDIR (path_join (basePath this) name)), w1)).
  { rewrite Hlist, flushByRegex_loop_app. erewrite bind_ok; [| exact Hloop].
    simpl. erewrite bind_ok; [| by apply String_match_ok]. rewrite Hm1.
    erewrite bind_ok; [| by apply String_match_ok]. rewrite Hm2.
    erewrite bind_throw; [reflexivity |].
    by apply (unlinkSync_dir name sz w1 d'). }
  eexists. split.
  - unfold flushByRegex.
    match goal with
    | |- try_catch ?m ?h ?s = _ =>
        rewrite (try_catch_throw m h s w1 (EISDIR (path_join (basePath this) name)))
    end.
    + unfold bind, console_error, ret. reflexivity.
    + erewrite bind_ok; [| reflexivity].
      erewrite bind_ok; [| by apply readdirSync_ok].
      erewrite bind_throw; [reflexivity |]. exact Hrun.
  - split; [| split]; simpl.
    + intros f Hf. unfold lookup_node. simpl. rewrite lookup_insert_eq. simpl.
      rewrite Hd'. by rewrite decide_True.
    + intros f Hf. unfold lookup_node. simpl. rewrite lookup_insert_eq. simpl.
      rewrite Hd'. rewrite decide_False; [done |].
      intros Hm. by apply (Hdisj f Hm).
    + done.
Qed.



End Facts.

(** ** Construction *)

(** C9, as the code has it -- the constructor replaces a falsy
    [defaultTTL] by 60: an engine built with [defaultTTL = 0] (or without
    one) is the engine built with 60 and so behaves like it; no construction
    gives a default TTL of 0; and as long as the default TTL in milliseconds
    and the expiration time are safe integers, a [set] without [ttl] writes a
    numeric expiration, [expiration = null] being what a per-call [ttl = 0]
    writes.  ([set] is taken where it succeeds: the cache directory exists or
    can be created, the key is one the platform accepts as a file name and
    no directory has that name.) *)
Theorem constructor_replaces_falsy_defaultTTL (base : string) :
  constructor base (Some 0) = constructor base (Some 60) /\
  constructor base None = constructor base (Some 60) /\
  (forall JSON_stringify,
     set JSON_stringify (constructor base (Some 0)) =
     set JSON_stringify (constructor base (Some 60))) /\
  (forall d, defaultTTL (constructor base d) <> 0) /\
  (forall JSON_stringify d prefix name payload w,
     let this := constructor base d in
     let key := formatFileName prefix name in
     safe_integer (defaultTTL this * 1000) ->
     safe_integer (now w + defaultTTL this * 1000) ->
     fst (mkdir_recursive base w) = Ok tt ->
     create_error base key = None ->
     (forall sz, lookup_node base key w <> Some (Dir sz)) ->
     (exists path w1,
        set JSON_stringify this prefix name payload None w = (Ok path, w1) /\
        lookup_node base key w1 =
          Some (File (JSON_stringify
                        (JObj [ ("payload", Object payload);
                                ("ttl", JNum (defaultTTL this * 1000));
                                ("expiration",
                                 JNum (now w + defaultTTL this * 1000)) ])))) /\
     (exists path w1,
        set JSON_stringify this prefix name payload (Some 0) w = (Ok path, w1) /\
        lookup_node base key w1 =
          Some (File (JSON_stringify
                        (JObj [ ("payload", Object payload);
                                ("ttl", JNum 0);
                                ("expiration", JNull) ]))))).
Proof.
  assert (Hne : forall d, defaultTTL (constructor base d) <> 0).
  { intros [t|]; simpl; [| done]. destruct (Z.eqb_spec t 0); [done | done]. }
  split; [reflexivity |]. split; [reflexivity |]. split; [reflexivity |].
  split; [exact Hne |].
  intros JSON_stringify d prefix name payload w this key Hs1 Hs2 Hmk Hname Hnd. split.
  - destruct (set_ok JSON_stringify this prefix name payload None w Hmk Hname Hnd)
      as (w1 & Hset & Hl & _).
    exists (path_resolve (basePath this) key), w1. split; [exact Hset |].
    refine (eq_trans Hl _).
    change (default (defaultTTL this) None) with (defaultTTL this).
    rewrite (document_safe _ _ _ Hs1 Hs2).
    assert ((defaultTTL this * 1000 =? 0) = false) as ->; [| done].
    apply Z.eqb_neq. specialize (Hne d). fold this in Hne. lia.
  - destruct (set_ok JSON_stringify this prefix name payload (Some 0) w Hmk Hname Hnd)
      as (w1 & Hset & Hl & _).
    exists (path_resolve (basePath this) key), w1. split; [exact Hset |].
    exact Hl.
Qed.

Lemma constructor_replaces_falsy_defaultTTL_witness :
  constructor "/cache" (Some 0) = constructor "/cache" (Some 60) /\
  defaultTTL (constructor "/cache" (Some 0)) = 60 /\
  (exists path w1,
     set Node.JSON_stringify (constructor "/cache" (Some 0)) (Some "acme") "user:42"
       (Val profile) None (empty_world 1000) = (Ok path, w1) /\
     lookup_node "/cache" (formatFileName (Some "acme") "user:42") w1 =
       Some (File (Node.JSON_stringify
                     (JObj [ ("payload", profile); ("ttl", JNum 60000);
                             ("expiration", JNum 61000) ])))).
Proof.
  destruct (constructor_replaces_falsy_defaultTTL "/cache")
    as (H0 & _ & _ & _ & Hset).
  split; [exact H0 |]. split; [reflexivity |].
  destruct (Hset Node.JSON_stringify (Some 0) (Some "acme") "user:42" (Val profile)
              (empty_world 1000)) as [Hdefault _].
  { by vm_compute. }
  { by vm_compute. }
  { vm_compute. reflexivity. }
  { vm_compute. reflexivity. }
  { intros sz H. vm_compute in H. discriminate H. }
  exact Hdefault.
Defined.

(** C9, counterexample -- a default that writes the mark of an entry
    without expiry can be configured: with a default TTL whose milliseconds
    are past the largest double, [ttl * 1000] is [Infinity], and a [set]
    without [ttl] writes [expiration = null] like a per-call [ttl = 0]. *)
Lemma huge_defaultTTL_writes_null_expiration :
  defaultTTL cache_huge_ttl = 2 ^ 1020 /\
  round_to_double (2 ^ 1020) = Int (2 ^ 1020) /\
  number_mul (defaultTTL cache_huge_ttl) 1000 = Infinity /\
  exists path w1,
    set Node.JSON_stringify cache_huge_ttl (Some "acme") "user:42" (Val profile) None
      (empty_world 1000) = (Ok path, w1) /\
    lookup_node "/cache" (formatFileName (Some "acme") "user:42") w1 =
      Some (File (Node.JSON_stringify
                    (JObj [ ("payload", profile); ("ttl", JNull);
                            ("expiration", JNull) ]))).
Proof.
  split; [vm_compute; reflexivity |].
  split; [vm_compute; reflexivity |].
  split; [vm_compute; reflexivity |].
  exists (path_resolve "/cache" (formatFileName (Some "acme") "user:42")),
    (snd (set Node.JSON_stringify cache_huge_ttl (Some "acme") "user:42" (Val profile)
            None (empty_world 1000))).
  split; vm_compute; reflexivity.
Qed.

(** ** The engine on concrete disks *)

(** C1, where the code departs from it -- an entry written with [ttl = 0]
    is stored with [expiration = null], and the very next sweep deletes it,
    at whatever time [t] the sweep runs: [validateFile] answers
    [expiresIn = null] and [invalidate] computes [(null || 0) <= 0]. *)
Theorem sweep_deletes_entry_written_with_ttl_0 (t : Z) :
  let key := formatFileName (Some "acme") "user:42" in
  lookup_node "/cache" key world_never_expiring =
    Some (File (Node.JSON_stringify (entry profile 0 1000))) /\
  Node.JSON_parse (Node.JSON_stringify (entry profile 0 1000)) =
    Some (JObj [ ("payload", profile); ("ttl", JNum 0); ("expiration", JNull) ]) /\
  fst (validateFile Node.JSON_parse Node.ToNumber_other cache key
         (at_time t world_never_expiring)) =
    Ok (Some {| v_ttl := Num (0 / 1000)%Q; v_expiresIn := None |}) /\
  lookup_node "/cache" key
    (snd (invalidate Node.JSON_parse Node.ToNumber_other cache
            (at_time t world_never_expiring))) = None.
Proof.
  repeat split; vm_compute; reflexivity.
Qed.

(** C2, counterexample -- a file whose content is not JSON is not skipped by
    the sweep: it is deleted (and counted as invalidated). *)
Lemma sweep_deletes_corrupt_entry :
  Node.JSON_parse "{not json" = None /\
  lookup_node "/cache" "broken" world_mixed = Some (File "{not json") /\
  lookup_node "/cache" "broken"
    (snd (invalidate Node.JSON_parse Node.ToNumber_other cache world_mixed)) = None /\
  (exists r,
     fst (invalidate Node.JSON_parse Node.ToNumber_other cache world_mixed) = Ok r /\
     r_filesInvalidated r = 2).
Proof.
  repeat split; try (vm_compute; reflexivity).
  eexists. split; vm_compute; reflexivity.
Qed.

Lemma sweep_treats_failure_as_expired_witness :
  exists r w',
    invalidate Node.JSON_parse Node.ToNumber_other cache world_mixed = (Ok r, w') /\
    lookup_node "/cache" "broken" w' = None /\
    lookup_node "/cache" "old" w' = None /\
    lookup_node "/cache" "live" w' =
      Some (File (Node.JSON_stringify (entry (JNum 1) 60000 1000))).
Proof.
  destruct (sweep_treats_failure_as_expired Node.JSON_parse Node.ToNumber_other
              cache world_mixed
              (list_to_map
                 [ ("broken", File "{not json");
                   ("live", File (Node.JSON_stringify (entry (JNum 1) 60000 1000)));
                   ("old", File (Node.JSON_stringify (entry (JNum 2) 1000 1000))) ]))
    as (r & w' & Hrun & Hbad & Hall).
  { vm_compute. reflexivity. }
  exists r, w'. split; [exact Hrun |]. split; [| split].
  - apply (Hbad "broken" "{not json"); vm_compute; reflexivity.
  - rewrite Hall. vm_compute. reflexivity.
  - rewrite Hall. vm_compute. reflexivity.
Defined.

(** C3, counterexample -- a deletion fails (the entry [sub] is a
    directory) and [flushAll] does not surface the failure: the call
    completes with [undefined]. *)
Lemma flushAll_swallows_failed_deletion :
  fst (unlinkSync "/cache" "sub" world_subdir) = Throw (EISDIR "/cache/sub") /\
  fst (flushAll cache world_subdir) = Ok None /\
  (forall e, fst (flushAll cache world_subdir) <> Throw e).
Proof.
  assert (H : fst (flushAll cache world_subdir) = Ok None) by (vm_compute; reflexivity).
  split; [vm_compute; reflexivity |]. split; [exact H |].
  intros e. rewrite H. discriminate.
Qed.

Lemma flushAll_catches_failed_deletion_witness :
  exists w',
    flushAll cache world_subdir = (Ok None, w') /\
    lookup_node "/cache" "alpha" w' = None /\
    lookup_node "/cache" "beta" w' = None /\
    lookup_node "/cache" "omega" w' = None /\
    lookup_node "/cache" "sub" w' = Some (Dir 4096) /\
    lookup_node "/cache" "zeta" w' = Some (File "5") /\
    console w' = [("Error reading cache folder:", EISDIR "/cache/sub")] /\
    GLOBAL_ENDPOINT_DELETE_REQUEST_COUNT w' = 1.
Proof.
  destruct (flushAll_catches_failed_deletion cache world_subdir
              (list_to_map
                 [ ("alpha", File "1"); ("sub", Dir 4096); ("omega", File "3");
                   ("beta", File "4"); ("zeta", File "5") ])
              ["alpha"; "beta"; "omega"] ["zeta"] "sub" 4096)
    as (w' & Hrun & Hbefore & Hafter & Hconsole & Hcount).
  { vm_compute. reflexivity. }
  { vm_compute. reflexivity. }
  { intros f Hf.
    repeat (apply elem_of_cons in Hf as [-> | Hf];
            [eexists; vm_compute; reflexivity |]).
    by apply elem_of_nil in Hf. }
  { vm_compute. reflexivity. }
  exists w'. split; [exact Hrun |].
  split; [apply Hbefore; by left |].
  split; [apply Hbefore; by right; left |].
  split; [apply Hbefore; by right; right; left |].
  split; [rewrite Hafter; [vm_compute; reflexivity | by left] |].
  split; [rewrite Hafter; [vm_compute; reflexivity | by right; left] |].
  split; [exact Hconsole | exact Hcount].
Defined.



Lemma invalidate_missing_directory_keeps_counter_witness :
  let w' := snd (invalidate Node.JSON_parse Node.ToNumber_other cache (empty_world 1000)) in
  GLOBAL_ENDPOINT_INVALIDATE_REQUEST_COUNT w' = 0 /\
  length (GLOBAL_LOGS_OVER_TIME w') = 1%nat.
Proof.
  apply (invalidate_missing_directory_keeps_counter Node.JSON_parse
           Node.ToNumber_other cache (empty_world 1000)).
  vm_compute. reflexivity.
Defined.

(** The empty pattern of the literal matcher matches every name. *)
Lemma contains_empty (s : string) : Node.contains "" s = true.
Proof. by destruct s. Qed.

Lemma flushByRegex_deletes_matching_witness :
  exists w',
    flushByRegex Node.RegExp cache "acme" None world_acme =
      (Ok (Some {| r_requestCount := 1; r_deleted := 2 |}), w') /\
    lookup_node "/cache" "acme hash_111" w' = None /\
    lookup_node "/cache" "acme hash_222" w' = None /\
    lookup_node "/cache" "other hash_333" w' = Some (File "3").
Proof.
  destruct (flushByRegex_deletes_matching Node.RegExp cache "acme" None
              (Node.contains "acme") (Node.contains "") world_acme
              (list_to_map
                 [ ("acme hash_111", File "1"); ("acme hash_222", File "2");
                   ("other hash_333", File "3") ]))
    as (w' & Hrun & _ & _ & Hdefault).
  { vm_compute. reflexivity. }
  { reflexivity. }
  { reflexivity. }
  { intros name n Hn _. apply elem_of_list_to_map_2 in Hn.
    repeat (apply elem_of_cons in Hn as [Hn | Hn]; [by simplify_eq |]).
    by apply elem_of_nil in Hn. }
  specialize (Hdefault contains_empty).
  exists w'. split; [| split; [| split]].
  - refine (eq_trans Hrun _). f_equal.
  - rewrite Hdefault. vm_compute. reflexivity.
  - rewrite Hdefault. vm_compute. reflexivity.
  - rewrite Hdefault. vm_compute. reflexivity.
Defined.

Lemma get_ignores_expiration_witness :
  get Node.JSON_parse cache (Some "acme") "user:42" (at_time 5000 world_short_lived) =
    (Ok (Val profile), at_time 5000 world_short_lived) /\
  invalid Node.JSON_parse Node.ToNumber_other cache
    (formatFileName (Some "acme") "user:42") (at_time 5000 world_short_lived) = true.
Proof.
  destruct (get_ignores_expiration Node.JSON_parse Node.ToNumber_other cache
              (Some "acme") "user:42"
              (Node.JSON_stringify (entry profile 1000 1000))
              [ ("payload", profile); ("ttl", JNum 1000); ("expiration", JNum 2000) ]
              world_short_lived) with (t := 5000) as [Hget Hinv].
  { vm_compute. reflexivity. }
  { vm_compute. reflexivity. }
  split; [exact Hget |].
  apply (Hinv 2000); [reflexivity | lia].
Defined.

Lemma set_stores_Object_of_payload_witness :
  exists path w1,
    set Node.JSON_stringify cache None "settings" (Val JNull) (Some 0)
      (empty_world 1000) = (Ok path, w1) /\
    lookup_node "/cache" (formatFileName None "settings") w1 =
      Some (File (Node.JSON_stringify (entry (JObj []) 0 1000))) /\
    get Node.JSON_parse cache None "settings" w1 = (Ok (Val (JObj [])), w1).
Proof.
  destruct (set_stores_Object_of_payload Node.JSON_stringify Node.JSON_parse cache
              None "settings" (Val JNull) (Some 0) (empty_world 1000))
    as (path & w1 & Hset & Hl & Hget & _).
  { vm_compute. reflexivity. }
  { vm_compute. reflexivity. }
  { intros sz H. vm_compute in H. discriminate H. }
  { vm_compute. reflexivity. }
  exists path, w1. split; [exact Hset |]. split; [exact Hl | exact Hget].
Defined.

(** An object payload is stored and read back as it is. *)
Example set_get_object_payload :
  exists path w1,
    set Node.JSON_stringify cache None "settings" (Val profile) None
      (empty_world 1000) = (Ok path, w1) /\
    lookup_node "/cache" (formatFileName None "settings") w1 =
      Some (File (Node.JSON_stringify (entry profile 60000 1000))) /\
    get Node.JSON_parse cache None "settings" w1 = (Ok (Val profile), w1).
Proof.
  exists (path_resolve "/cache" (formatFileName None "settings")),
    (snd (set Node.JSON_stringify cache None "settings" (Val profile) None
            (empty_world 1000))).
  repeat split; vm_compute; reflexivity.
Qed.

(** A prefix with a path separator turns the key into a path through a
    sub-directory; on a cache directory without it the write fails, and
    [set] logs the error and throws it again. *)
Example set_nested_prefix_fails :
  let path := path_resolve "/cache" (formatFileName (Some "a/b") "user:42") in
  set Node.JSON_stringify cache (Some "a/b") "user:42" (Val profile) None
    world_empty_cache =
    (Throw (ENOENT path),
     with_console [("Error:", ENOENT path)] world_empty_cache).
Proof. vm_compute. reflexivity. Qed.

(** The second pattern of the design document's example: nothing matches
    it, nothing is deleted; and a malformed pattern is reported, not thrown. *)
Example flushByRegex_no_match :
  fst (flushByRegex Node.RegExp cache "acme" (Some "zzz") world_acme) =
    Ok (Some {| r_requestCount := 1; r_deleted := 0 |}) /\
  fst (flushByRegex Node.RegExp cache "acme(" None world_acme) = Ok None.
Proof. split; vm_compute; reflexivity. Qed.

(** ** The further properties on concrete disks *)


Lemma get_on_regular_file_witness :
  fst (get Node.JSON_parse cache None "settings" world_corrupt) = Throw SyntaxError.
Proof.
  rewrite (get_on_regular_file Node.JSON_parse cache None "settings" "{not json"
             world_corrupt).
  - vm_compute. reflexivity.
  - vm_compute. reflexivity.
Defined.

Lemma set_on_directory_key_fails_witness :
  fst (set Node.JSON_stringify cache None "settings" (Val profile) None
         world_key_is_directory) =
    Throw (EISDIR (path_resolve "/cache" (formatFileName None "settings"))) /\
  console (snd (set Node.JSON_stringify cache None "settings" (Val profile) None
                  world_key_is_directory)) =
    [("Error:", EISDIR (path_resolve "/cache" (formatFileName None "settings")))].
Proof.
  rewrite (set_on_directory_key_fails Node.JSON_stringify cache None "settings"
             (Val profile) None world_key_is_directory 4096).
  - split; reflexivity.
  - vm_compute. reflexivity.
Defined.

Lemma set_overwrites_witness :
  exists path w1 w2,
    set Node.JSON_stringify cache (Some "acme") "user:42" (Val (JNum 1)) (Some 0)
      (empty_world 1000) = (Ok path, w1) /\
    set Node.JSON_stringify cache (Some "acme") "user:42" (Val profile) None
      (at_time 2000 w1) = (Ok path, w2) /\
    get Node.JSON_parse cache (Some "acme") "user:42" w2 = (Ok (Val profile), w2).
Proof.
  destruct (set_overwrites Node.JSON_stringify Node.JSON_parse cache (Some "acme")
              "user:42" (Val (JNum 1)) (Val profile) (Some 0) None
              (empty_world 1000) 2000)
    as (path & w1 & w2 & H1 & H2 & H3 & _).
  { vm_compute. reflexivity. }
  { vm_compute. reflexivity. }
  { intros sz H. vm_compute in H. discriminate H. }
  { vm_compute. reflexivity. }
  exists path, w1, w2. split; [exact H1 |]. split; [exact H2 | exact H3].
Defined.

Lemma set_touches_only_its_key_witness :
  exists path w1,
    set Node.JSON_stringify cache None "settings" (Val profile) None world_acme =
      (Ok path, w1) /\
    lookup_node "/cache" "acme hash_111" w1 = Some (File "1") /\
    lookup_node "/cache" "other hash_333" w1 = Some (File "3") /\
    same_globals world_acme w1.
Proof.
  destruct (set_touches_only_its_key Node.JSON_stringify cache None "settings"
              (Val profile) None world_acme)
    as (path & w1 & Hset & _ & _ & Hother & _ & Hglobals).
  { vm_compute. reflexivity. }
  { vm_compute. reflexivity. }
  { intros sz H. vm_compute in H. discriminate H. }
  exists path, w1. split; [exact Hset |].
  split; [rewrite Hother; [vm_compute; reflexivity |] |].
  { intros H. vm_compute in H. discriminate H. }
  split; [rewrite Hother; [vm_compute; reflexivity |] | exact Hglobals].
  intros H. vm_compute in H. discriminate H.
Defined.

Lemma sweep_deletes_after_ttl_witness :
  (exists path w1,
     set Node.JSON_stringify cache (Some "acme") "user:42" (Val profile) (Some 1)
       world_empty_cache = (Ok path, w1) /\
     lookup_node "/cache" (formatFileName (Some "acme") "user:42")
       (snd (invalidate Node.JSON_parse Node.ToNumber_other cache (at_time 1999 w1))) =
       Some (File (Node.JSON_stringify (entry profile 1000 1000)))) /\
  (exists path w1,
     set Node.JSON_stringify cache (Some "acme") "user:42" (Val profile) (Some 1)
       world_empty_cache = (Ok path, w1) /\
     lookup_node "/cache" (formatFileName (Some "acme") "user:42")
       (snd (invalidate Node.JSON_parse Node.ToNumber_other cache (at_time 2000 w1))) =
       None).
Proof.
  split.
  - apply (sweep_deletes_after_ttl Node.JSON_stringify Node.JSON_parse
             Node.ToNumber_other cache (Some "acme") "user:42" (Val profile) 1
             world_empty_cache 1999).
    + lia.
    + simpl. lia.
    + by vm_compute.
    + by vm_compute.
    + by eexists.
    + vm_compute. reflexivity.
    + intros sz H. vm_compute in H. discriminate H.
    + vm_compute. reflexivity.
  - apply (sweep_deletes_after_ttl Node.JSON_stringify Node.JSON_parse
             Node.ToNumber_other cache (Some "acme") "user:42" (Val profile) 1
             world_empty_cache 2000).
    + lia.
    + simpl. lia.
    + by vm_compute.
    + by vm_compute.
    + by eexists.
    + vm_compute. reflexivity.
    + intros sz H. vm_compute in H. discriminate H.
    + vm_compute. reflexivity.
Defined.

Lemma invalidate_report_witness :
  exists r w',
    invalidate Node.JSON_parse Node.ToNumber_other cache world_mixed = (Ok r, w') /\
    r_bytes r = 95 /\
    r_filesInvalidated r = 2 /\
    map file (r_logs r) = ["broken"; "live"; "old"] /\
    map valid (r_logs r) = [false; true; false].
Proof.
  destruct (invalidate_report Node.JSON_parse Node.ToNumber_other cache world_mixed
              (list_to_map
                 [ ("broken", File "{not json");
                   ("live", File (Node.JSON_stringify (entry (JNum 1) 60000 1000)));
                   ("old", File (Node.JSON_stringify (entry (JNum 2) 1000 1000))) ]))
    as (r & w' & Hrun & Hbytes & Hcount & Hfiles & Hvalid & _).
  { vm_compute. reflexivity. }
  exists r, w'. split; [exact Hrun |].
  split; [rewrite Hbytes; vm_compute; reflexivity |].
  split; [rewrite Hcount; vm_compute; reflexivity |].
  split; [rewrite Hfiles; vm_compute; reflexivity |].
  rewrite Hvalid. vm_compute. reflexivity.
Defined.


Lemma flush_missing_directory_witness :
  fst (flushAll cache (empty_world 1000)) = Ok None /\
  fst (flushByRegex Node.RegExp cache "acme" None (empty_world 1000)) = Ok None /\
  console (snd (flushAll cache (empty_world 1000))) =
    [("Error reading cache folder:", ENOENT "/cache")] /\
  GLOBAL_ENDPOINT_DELETE_REQUEST_COUNT (snd (flushAll cache (empty_world 1000))) = 1.
Proof.
  destruct (flush_missing_directory Node.RegExp cache "acme" None (empty_world 1000))
    as [Hall Hregex].
  { vm_compute. reflexivity. }
  rewrite Hall, Hregex. repeat split.
Defined.

Lemma flushByRegex_malformed_pattern_witness :
  flushByRegex Node.RegExp cache "acme(" None world_acme =
    (Ok None,
     with_console [("Error reading cache folder:", SyntaxError)]
       (snd (incr_delete_by_regex world_acme))).
Proof.
  rewrite (flushByRegex_malformed_pattern Node.RegExp cache "acme(" None world_acme
             (list_to_map
                [ ("acme hash_111", File "1"); ("acme hash_222", File "2");
                  ("other hash_333", File "3") ])).
  - rewrite decide_False; [reflexivity |].
    intros H. apply (f_equal (fun m => m !! "other hash_333")) in H.
    vm_compute in H. discriminate H.
  - vm_compute. reflexivity.
  - reflexivity.
Defined.

Lemma flushByRegex_catches_failed_deletion_witness :
  exists w',
    flushByRegex Node.RegExp cache "acme" None world_acme_subdir = (Ok None, w') /\
    lookup_node "/cache" "acme hash_111" w' = None /\
    lookup_node "/cache" "acme hash_222" w' = None /\
    lookup_node "/cache" "acme sub" w' = Some (Dir 4096) /\
    lookup_node "/cache" "acme tail" w' = Some (File "4") /\
    lookup_node "/cache" "other hash_333" w' = Some (File "3") /\
    console w' = [("Error reading cache folder:", EISDIR "/cache/acme sub")].
Proof.
  destruct (flushByRegex_catches_failed_deletion Node.RegExp cache "acme" None
              (Node.contains "acme") (Node.contains "") world_acme_subdir
              (list_to_map
                 [ ("acme hash_111", File "1"); ("acme sub", Dir 4096);
                   ("other hash_333", File "3"); ("acme hash_222", File "22");
                   ("acme tail", File "4") ])
              ["acme hash_111"; "acme hash_222"] ["acme tail"; "other hash_333"]
              "acme sub" 4096)
    as (w' & Hrun & Hbefore & Hafter & Hconsole).
  { vm_compute. reflexivity. }
  { vm_compute. reflexivity. }
  { reflexivity. }
  { reflexivity. }
  { intros f Hf _.
    repeat (apply elem_of_cons in Hf as [-> | Hf];
            [eexists; vm_compute; reflexivity |]).
    by apply elem_of_nil in Hf. }
  { vm_compute. reflexivity. }
  { vm_compute. reflexivity. }
  exists w'. split; [exact Hrun |].
  split; [rewrite Hbefore; [vm_compute; reflexivity | by left] |].
  split; [rewrite Hbefore; [vm_compute; reflexivity | by right; left] |].
  split; [rewrite Hafter; [vm_compute; reflexivity | by left] |].
  split; [rewrite Hafter; [vm_compute; reflexivity | by right; left] |].
  split; [rewrite Hafter; [vm_compute; reflexivity | by right; right; left] |].
  exact Hconsole.
Defined.


